(** * torch_frame: column statistics and frame concatenation

    A shallow embedding of [torch_frame/utils/concat.py] and
    [torch_frame/data/stats.py], with the properties their specification
    states about them.

    Python dictionaries keep insertion order and are compared without
    regard to it, so they are association lists with unique keys here:
    iteration follows the list, equality goes through lookups.  A raised
    exception is the [Err] branch of [result]. *)

From Stdlib Require Import String Ascii ZArith Arith Bool Lia PeanoNat List.
From Stdlib Require Import Floats.SpecFloat.
From Stdlib Require Import Sorting.Sorted Sorting.Permutation.
Import ListNotations.
Local Open Scope string_scope.
Local Open Scope list_scope.
Local Open Scope nat_scope.

Set Implicit Arguments.

(* ------------------------------------------------------------------ *)
(** ** Semantic types *)

(** Modelled from the spec: the closed enumeration [torch_frame.stype]
    (section 2, Semantic Type Registry); the declaration itself is not part
    of the sources at hand. *)
Inductive stype :=
| numerical
| categorical
| multicategorical
| sequence_numerical
| timestamp
| text_embedded
| embedding.

Definition stype_eq_dec (a b : stype) : {a = b} + {a <> b}.
Proof. decide equality. Defined.

(* ------------------------------------------------------------------ *)
(** ** Exceptions *)

(** One constructor per [raise] site (or library failure) reached by the
    code below.  The names follow the error taxonomy of the specification
    where it has one; the payload is what the message interpolates. *)
Inductive exn :=
| EmptyInputError
    (* cat: "Cannot concatenate an empty list of tensor frames." *)
| InvalidAlong (along : string)
    (* cat: ValueError, `along` must be either 'row' or 'col' *)
| SchemaMismatch (expected : list (stype * list string))
    (* _cat_row: col_names_dict's do not match (expect all {col_names_dict}) *)
| TargetMismatch (expect_tensor : bool)
    (* _cat_row: 'y' attribute types do not match (expect all None / Tensor) *)
| AmbiguousTargetError
    (* _cat_col: more than one tensor frame with non-None y attribute *)
| DuplicateColumnError (s : stype) (duplicates : list string)
    (* _cat_col: {stype} contains duplicated column names: {duplicates} *)
| TorchSizeError
    (* torch.cat: sizes of tensors must match except in dimension `dim` *)
| RaggedSizeError
    (* MultiNestedTensor.cat: inputs of a column concatenation differ in rows *)
| KeyError (name : string)
    (* feat[name] on a dictionary without that key *)
| TypeError
    (* a value of the wrong Python type reached an operation *)
| IndexError
    (* indexing past the end, or an unsupported dimension *)
| FrameInvariantError
    (* TensorFrame(...): the constructor's validation failed *)
| ValueError
    (* numpy: "need at least one array to concatenate"; min() of nothing *)
| MissingSeparatorError.
    (* StatType.compute: `assert sep is not None` *)

Inductive result (A : Type) :=
| Ok (a : A)
| Err (e : exn).

Arguments Ok {A} a.
Arguments Err {A} e.

Definition bind {A B} (r : result A) (k : A -> result B) : result B :=
  match r with
  | Ok a => k a
  | Err e => Err e
  end.

Notation "x <- c ;; k" := (bind c (fun x => k))
  (at level 61, c at next level, right associativity).

Fixpoint mapM {A B} (f : A -> result B) (l : list A) : result (list B) :=
  match l with
  | [] => Ok []
  | a :: l' => b <- f a ;; bs <- mapM f l' ;; Ok (b :: bs)
  end.

Definition is_ok {A} (r : result A) : bool :=
  match r with Ok _ => true | Err _ => false end.

(* ------------------------------------------------------------------ *)
(** ** Dictionaries *)

Section Dict.
Context {K : Type} (K_eq_dec : forall a b : K, {a = b} + {a <> b}).
Context {V : Type}.

Definition dict := list (K * V).

Definition keys (d : dict) : list K := map fst d.

Fixpoint dict_get (k : K) (d : dict) : option V :=
  match d with
  | [] => None
  | (k', v) :: d' => if K_eq_dec k k' then Some v else dict_get k d'
  end.

Definition mem (k : K) (l : list K) : bool :=
  if in_dec K_eq_dec k l then true else false.

Fixpoint nodupb (l : list K) : bool :=
  match l with
  | [] => true
  | k :: l' => negb (mem k l') && nodupb l'
  end.

(** [d1 == d2] on Python dictionaries: the same number of keys, and every
    key of the one maps to an equal value in the other. *)
Definition dict_eqb (V_eqb : V -> V -> bool) (d1 d2 : dict) : bool :=
  (length d1 =? length d2) &&
  forallb (fun kv => match dict_get (fst kv) d2 with
                     | Some v => V_eqb (snd kv) v
                     | None => false
                     end) d1.
End Dict.

Section DefaultDict.
Context {K : Type} (K_eq_dec : forall a b : K, {a = b} + {a <> b}).
Context {A : Type}.

(** [d[k].extend(xs)] on a [defaultdict(list)]: a missing key is first
    entered, at the end, with the empty list. *)
Fixpoint dd_extend (k : K) (xs : list A) (d : list (K * list A))
  : list (K * list A) :=
  match d with
  | [] => [(k, xs)]
  | (k', l) :: d' =>
      if K_eq_dec k k' then (k', l ++ xs) :: d'
      else (k', l) :: dd_extend k xs d'
  end.

(** [d[k]] read back as a list: the empty list for a key never entered. *)
Definition dd_lookup (k : K) (d : list (K * list A)) : list A :=
  match dict_get K_eq_dec k d with
  | Some l => l
  | None => []
  end.
End DefaultDict.

Definition list_eqb {A} (eqb : A -> A -> bool) : list A -> list A -> bool :=
  fix go (l1 l2 : list A) : bool :=
    match l1, l2 with
    | [], [] => true
    | a :: l1', b :: l2' => eqb a b && go l1' l2'
    | _, _ => false
    end.

(* ------------------------------------------------------------------ *)
(** ** Physical storage *)

(** A dense two-dimensional [torch.Tensor]: its shape and its values in
    row-major order.  All tensors are taken to be on one device and of
    one element type. *)
Record Tensor := mkTensor {
  size0 : nat;
  size1 : nat;
  values : list Z
}.

Definition tensor_row (t : Tensor) (i : nat) : list Z :=
  firstn (size1 t) (skipn (i * size1 t) (values t)).

(** [torch.cat(tensors, dim)] on such tensors: the list must not be empty
    and the sizes must agree in every dimension but [dim].  What
    [torch.cat] refuses beyond that (tensors on different devices, or of
    more dimensions with different trailing sizes) does not arise for
    such tensors. *)
Definition torch_cat (ts : list Tensor) (dim : nat) : result Tensor :=
  match ts with
  | [] => Err TorchSizeError
  | t0 :: rest =>
      match dim with
      | 0 =>
          if forallb (fun t => size1 t =? size1 t0) rest
          then Ok (mkTensor (list_sum (map size0 ts)) (size1 t0)
                            (concat (map values ts)))
          else Err TorchSizeError
      | 1 =>
          if forallb (fun t => size0 t =? size0 t0) rest
          then Ok (mkTensor (size0 t0) (list_sum (map size1 ts))
                            (flat_map (fun i => flat_map (fun t => tensor_row t i) ts)
                                      (seq 0 (size0 t0))))
          else Err TorchSizeError
      | _ => Err IndexError
      end
  end.

(** Modelled from the spec: the ragged tensor [MultiNestedTensor] of
    [torch_frame/data/multi_nested_tensor.py], which is not part of the
    sources at hand (section 4.2).  The value buffer cut at its offsets is
    kept as what it denotes: the rows in order, each row the slices it
    holds, each slice a sequence of values. *)
Definition MultiNestedTensor := list (list (list Z)).

Fixpoint zip_rows (a b : MultiNestedTensor) : MultiNestedTensor :=
  match a, b with
  | ra :: a', rb :: b' => (ra ++ rb) :: zip_rows a' b'
  | _, _ => []
  end.

(** Modelled from the spec: [MultiNestedTensor.cat] (section 4.2, concat).
    Along the rows the buffers are appended, so the row count is the sum of
    the inputs'; along the columns all inputs must have the same row count
    and row [i] of the output is the concatenation of the inputs' rows [i],
    in input order. *)
Definition mnt_cat (ts : list MultiNestedTensor) (dim : nat)
  : result MultiNestedTensor :=
  match ts with
  | [] => Err RaggedSizeError
  | t0 :: rest =>
      match dim with
      | 0 => Ok (concat ts)
      | 1 =>
          if forallb (fun t => length t =? length t0) rest
          then Ok (fold_left zip_rows rest t0)
          else Err RaggedSizeError
      | _ => Err IndexError
      end
  end.

(** [TensorData]: a dense tensor, a ragged tensor, or a dictionary of named
    ragged tensors. *)
Inductive TensorData :=
| Dense (t : Tensor)
| Ragged (m : MultiNestedTensor)
| Group (g : list (string * MultiNestedTensor)).

Definition as_dense (d : TensorData) : result Tensor :=
  match d with Dense t => Ok t | _ => Err TypeError end.

Definition as_ragged (d : TensorData) : result MultiNestedTensor :=
  match d with Ragged m => Ok m | _ => Err TypeError end.

Definition as_group (d : TensorData)
  : result (list (string * MultiNestedTensor)) :=
  match d with Group g => Ok g | _ => Err TypeError end.

(** [feat[name]] on a dictionary. *)
Definition getitem (name : string) (g : list (string * MultiNestedTensor))
  : result MultiNestedTensor :=
  match dict_get string_dec name g with
  | Some m => Ok m
  | None => Err (KeyError name)
  end.

(* ------------------------------------------------------------------ *)
(** ** Frames *)

Record TensorFrame := mkTensorFrame {
  feat_dict : list (stype * TensorData);
  col_names_dict : list (stype * list string);
  y : option (list Z)
}.

Definition sget {V} := @dict_get stype stype_eq_dec V.
Definition col_names_eqb :=
  @dict_eqb stype stype_eq_dec (list string) (list_eqb String.eqb).

(** The row dimension of every physical tensor of a storage entry, and the
    column dimension of every one of them (a ragged tensor has one per
    row). *)
Definition data_rows (d : TensorData) : list nat :=
  match d with
  | Dense t => [size0 t]
  | Ragged m => [length m]
  | Group g => map (fun kv => length (snd kv)) g
  end.

Definition data_cols (d : TensorData) : list nat :=
  match d with
  | Dense t => [size1 t]
  | Ragged m => map (@length _) m
  | Group g => flat_map (fun kv => map (@length _) (snd kv)) g
  end.

Definition storage_rows (feat : list (stype * TensorData)) : list nat :=
  flat_map (fun kv => data_rows (snd kv)) feat.

(** Modelled from the spec: [TensorFrame.num_rows] (section 3, "single
    shared row count"), read off the first storage entry; a frame without
    storage has none. *)
Definition num_rows (tf : TensorFrame) : option nat :=
  hd_error (storage_rows (feat_dict tf)).

Definition nrows (tf : TensorFrame) : nat :=
  match num_rows tf with Some n => n | None => 0 end.

(** Modelled from the spec: the validation run by the [TensorFrame]
    constructor of [torch_frame/data/tensor_frame.py], which is not part of
    the sources at hand (section 3, invariants 1 to 4, "checked at
    construction").  Both mappings are dictionaries over the same semantic
    types; (1) a storage entry has as many columns as its type has names;
    (2) all storages and the target share one row count; (3) names are
    unique within a type; (4) a storage entry holds at least one column. *)
Definition frame_ok (feat : list (stype * TensorData))
           (names : list (stype * list string)) (tgt : option (list Z)) : bool :=
  nodupb stype_eq_dec (keys feat) &&
  nodupb stype_eq_dec (keys names) &&
  forallb (fun s => mem stype_eq_dec s (keys names)) (keys feat) &&
  forallb (fun s => mem stype_eq_dec s (keys feat)) (keys names) &&
  forallb (fun kv =>
             let n := length (dd_lookup stype_eq_dec (fst kv) names) in
             (1 <=? n) &&
             negb (length (data_rows (snd kv)) =? 0) &&
             forallb (Nat.eqb n) (data_cols (snd kv))) feat &&
  forallb (fun kv => nodupb string_dec (snd kv)) names &&
  match hd_error (storage_rows feat) with
  | Some n =>
      forallb (Nat.eqb n) (storage_rows feat) &&
      match tgt with Some v => length v =? n | None => true end
  | None => false
  end.

Definition valid (tf : TensorFrame) : bool :=
  frame_ok (feat_dict tf) (col_names_dict tf) (y tf).

Definition new_TensorFrame (feat : list (stype * TensorData))
           (names : list (stype * list string)) (tgt : option (list Z))
  : result TensorFrame :=
  if frame_ok feat names tgt then Ok (mkTensorFrame feat names tgt)
  else Err FrameInvariantError.

(* ------------------------------------------------------------------ *)
(** ** [collections.Counter] and [_get_duplicates] *)

Section Counting.
Context {K : Type} (K_eq_dec : forall a b : K, {a = b} + {a <> b}).

Fixpoint count_add (x : K) (c : list (K * nat)) : list (K * nat) :=
  match c with
  | [] => [(x, 1)]
  | (k, n) :: c' =>
      if K_eq_dec x k then (k, S n) :: c' else (k, n) :: count_add x c'
  end.

(** A hash table of occurrence counts filled in one pass: the distinct
    elements in the order they first occur, each with the number of its
    occurrences. *)
Definition count_items (lst : list K) : list (K * nat) :=
  fold_left (fun c x => count_add x c) lst [].
End Counting.

(** [Counter(lst)] on column names. *)
Definition Counter (lst : list string) : list (string * nat) :=
  count_items string_dec lst.

Definition _get_duplicates (lst : list string) : list string :=
  map fst (filter (fun kv => 1 <? snd kv) (Counter lst)).

(* ------------------------------------------------------------------ *)
(** ** Concatenation ([torch_frame/utils/concat.py]) *)

Definition is_none {A} (o : option A) : bool :=
  match o with None => true | Some _ => false end.

Fixpoint enumerate_from {A} (i : nat) (l : list A) : list (nat * A) :=
  match l with
  | [] => []
  | a :: l' => (i, a) :: enumerate_from (S i) l'
  end.

Section Concat.
(** The two properties of [stype] that [_cat_helper] reads; the class that
    defines them is not part of the sources at hand, so the development
    holds for every registry. *)
Variable use_multi_nested_tensor : stype -> bool.
Variable use_dict_multi_nested_tensor : stype -> bool.

(** First loop of [_cat_helper]: the storages of each semantic type, in
    input order; the types in the order they are first met. *)
Definition feat_list_dict (tf_list : list TensorFrame)
  : list (stype * list TensorData) :=
  fold_left
    (fun acc tf =>
       fold_left (fun acc kv => dd_extend stype_eq_dec (fst kv) [snd kv] acc)
                 (feat_dict tf) acc)
    tf_list [].

(** The [use_dict_multi_nested_tensor] branch: the member names are those
    of [feat_list[0]]; each is looked up in every element. *)
Definition cat_group (feat_list : list TensorData) (dim : nat)
  : result (list (string * MultiNestedTensor)) :=
  match feat_list with
  | [] => Err IndexError
  | first :: _ =>
      g0 <- as_group first ;;
      mapM (fun name =>
              ts <- mapM (fun feat => g <- as_group feat ;; getitem name g)
                         feat_list ;;
              m <- mnt_cat ts dim ;;
              Ok (name, m))
           (keys g0)
  end.

Definition cat_feat (s : stype) (feat_list : list TensorData) (dim : nat)
  : result TensorData :=
  if use_multi_nested_tensor s then
    ts <- mapM as_ragged feat_list ;;
    m <- mnt_cat ts dim ;;
    Ok (Ragged m)
  else if use_dict_multi_nested_tensor s then
    g <- cat_group feat_list dim ;;
    Ok (Group g)
  else
    ts <- mapM as_dense feat_list ;;
    t <- torch_cat ts dim ;;
    Ok (Dense t).

Definition _cat_helper (tf_list : list TensorFrame) (dim : nat)
  : result (list (stype * TensorData)) :=
  mapM (fun kv => d <- cat_feat (fst kv) (snd kv) dim ;; Ok (fst kv, d))
       (feat_list_dict tf_list).

(** [_cat_row], the column-name check. *)
Definition check_col_names (tf0 : TensorFrame) (rest : list TensorFrame)
  : result unit :=
  if forallb (fun tf => col_names_eqb (col_names_dict tf) (col_names_dict tf0))
             rest
  then Ok tt
  else Err (SchemaMismatch (col_names_dict tf0)).

(** [_cat_row], the target check. *)
Definition check_y (tf0 : TensorFrame) (tf_list : list TensorFrame)
  : result unit :=
  match y tf0 with
  | None =>
      if forallb (fun tf => is_none (y tf)) tf_list then Ok tt
      else Err (TargetMismatch false)
  | Some _ =>
      if forallb (fun tf => negb (is_none (y tf))) tf_list then Ok tt
      else Err (TargetMismatch true)
  end.

(** [torch.cat([tf.y for tf in tf_list], dim=0)] on one-dimensional
    targets. *)
Definition cat_y (tf_list : list TensorFrame) : result (list Z) :=
  ys <- mapM (fun tf => match y tf with
                        | Some v => Ok v
                        | None => Err TypeError
                        end) tf_list ;;
  Ok (concat ys).

Definition _cat_row (tf_list : list TensorFrame) : result TensorFrame :=
  match tf_list with
  | [] => Err IndexError
  | tf0 :: rest =>
      _ <- check_col_names tf0 rest ;;
      _ <- check_y tf0 tf_list ;;
      tgt <- match y tf0 with
             | None => Ok None
             | Some _ => v <- cat_y tf_list ;; Ok (Some v)
             end ;;
      feat <- _cat_helper tf_list 0 ;;
      new_TensorFrame feat (col_names_dict tf0) tgt
  end.

Definition idx_with_non_nan_y (tf_list : list TensorFrame) : list nat :=
  map fst (filter (fun p => negb (is_none (y (snd p))))
                  (enumerate_from 0 tf_list)).

(** [_cat_col], the target of the result. *)
Definition col_target (tf_list : list TensorFrame)
  : result (option (list Z)) :=
  match idx_with_non_nan_y tf_list with
  | [] => Ok None
  | [i] =>
      match nth_error tf_list i with
      | Some tf => Ok (y tf)
      | None => Err IndexError
      end
  | _ => Err AmbiguousTargetError
  end.

(** [_cat_col], the merged [col_names_dict]. *)
Definition merged_col_names (tf_list : list TensorFrame)
  : list (stype * list string) :=
  fold_left
    (fun acc tf =>
       fold_left (fun acc kv => dd_extend stype_eq_dec (fst kv) (snd kv) acc)
                 (col_names_dict tf) acc)
    tf_list [].

(** [_cat_col], the duplicate check: the first semantic type, in the order
    of the merged dictionary, whose names repeat raises. *)
Fixpoint check_duplicates (d : list (stype * list string)) : result unit :=
  match d with
  | [] => Ok tt
  | (s, col_names) :: d' =>
      let duplicates := _get_duplicates col_names in
      if 0 <? length duplicates
      then Err (DuplicateColumnError s duplicates)
      else check_duplicates d'
  end.

Definition _cat_col (tf_list : list TensorFrame) : result TensorFrame :=
  tgt <- col_target tf_list ;;
  let col_names_dict := merged_col_names tf_list in
  _ <- check_duplicates col_names_dict ;;
  feat <- _cat_helper tf_list 1 ;;
  new_TensorFrame feat col_names_dict tgt.

Definition cat (tf_list : list TensorFrame) (along : string)
  : result TensorFrame :=
  if length tf_list =? 0 then Err EmptyInputError
  else if String.eqb along "row" then _cat_row tf_list
  else if String.eqb along "col" then _cat_col tf_list
  else Err (InvalidAlong along).

End Concat.

(* ------------------------------------------------------------------ *)
(** ** Column statistics ([torch_frame/data/stats.py]) *)

(** A [float64]: the IEEE 754 values of the standard library. *)
Definition float := spec_float.

Definition nan : float := S754_nan.

Definition isfinite (f : float) : bool :=
  match f with
  | S754_zero _ | S754_finite _ _ _ => true
  | S754_infinity _ | S754_nan => false
  end.

Definition isinf (f : float) : bool :=
  match f with S754_infinity _ => true | _ => false end.

Definition float_eq_dec (a b : float) : {a = b} + {a <> b}.
Proof.
  decide equality; try apply Bool.bool_dec; try apply Pos.eq_dec;
    apply Z.eq_dec.
Defined.

(** One cell of a [pandas.Series]: a float (not-a-number is the missing
    float), a string, a sequence of floats, or [None]. *)
Inductive cell :=
| CFloat (f : float)
| CStr (s : string)
| CList (l : list float)
| CNone.

Definition cell_eq_dec (a b : cell) : {a = b} + {a <> b}.
Proof.
  decide equality;
    [apply float_eq_dec | apply string_dec | apply (list_eq_dec float_eq_dec)].
Defined.

Definition Series := list cell.

Definition isnull (c : cell) : bool :=
  match c with
  | CNone => true
  | CFloat S754_nan => true
  | _ => false
  end.

Definition dropna (ser : Series) : Series :=
  filter (fun c => negb (isnull c)) ser.

(** [ser.mask(ser.isin([np.inf, -np.inf]), np.nan)]. *)
Definition mask_inf (ser : Series) : Series :=
  map (fun c => match c with
                | CFloat f => if isinf f then CFloat nan else c
                | _ => c
                end) ser.

Inductive StatType :=
| MEAN
| STD
| QUANTILES
| COUNT
| MULTI_COUNT
| YEAR_RANGE
| EMB_DIM.

Definition stats_for_stype (s : stype) : list StatType :=
  match s with
  | numerical => [MEAN; STD; QUANTILES]
  | categorical => [COUNT]
  | multicategorical => [MULTI_COUNT]
  | sequence_numerical => [MEAN; STD; QUANTILES]
  | timestamp => [YEAR_RANGE]
  | _ => []
  end.

(** What a statistic evaluates to: a float, a list of floats, a frequency
    table (index and counts), a list of integers, or an integer. *)
Inductive stat_value :=
| VFloat (f : float)
| VFloats (l : list float)
| VCount (index : list cell) (counts : list nat)
| VInts (l : list Z)
| VInt (z : Z)
| VNone.

Definition _default_values (st : StatType) : stat_value :=
  match st with
  | MEAN => VFloat nan
  | STD => VFloat nan
  | QUANTILES => VFloats [nan; nan; nan; nan; nan]
  | COUNT => VCount [] []
  | MULTI_COUNT => VCount [] []
  | YEAR_RANGE => VFloats [nan; nan]
  | EMB_DIM => VInt (-1)
  end.

(** [np.hstack(tup)]: the one-dimensional arrays of [tup], joined;
    [np.concatenate] refuses an empty sequence ("need at least one array to
    concatenate"). *)
Definition np_hstack (tup : list (list float)) : result (list float) :=
  match tup with
  | [] => Err ValueError
  | _ => Ok (concat tup)
  end.

(** [np.atleast_1d] on one element of [ser.values]. *)
Definition atleast_1d (c : cell) : result (list float) :=
  match c with
  | CFloat f => Ok [f]
  | CList l => Ok l
  | _ => Err TypeError
  end.

(** [np.hstack(np.hstack(ser.values))]: the outer call iterates over the
    scalars of the array the inner call returns. *)
Definition flatten (ser : Series) : result (list float) :=
  arrs <- mapM atleast_1d ser ;;
  inner <- np_hstack arrs ;;
  np_hstack (map (fun x => [x]) inner).

(** A list is not hashable. *)
Definition hashable (c : cell) : bool :=
  match c with CList _ => false | _ => true end.

(** The key under which the hash table of [value_counts] files a value:
    the two float zeros are equal and hash alike, so they are one key. *)
Definition hash_key (c : cell) : cell :=
  match c with
  | CFloat (S754_zero _) => CFloat (S754_zero false)
  | _ => c
  end.

Definition same_key (a b : cell) : bool :=
  if cell_eq_dec (hash_key a) (hash_key b) then true else false.

(** One more occurrence in the table: the count of its key goes up, or the
    value is appended as a new key with count one.  A key keeps the value
    first met under it. *)
Fixpoint hash_add (x : cell) (c : list (cell * nat)) : list (cell * nat) :=
  match c with
  | [] => [(x, 1)]
  | (k, n) :: c' =>
      if same_key x k then (k, S n) :: c' else (k, n) :: hash_add x c'
  end.

Definition hash_count (l : list cell) : list (cell * nat) :=
  fold_left (fun c x => hash_add x c) l [].

(** [Series.value_counts(ascending=False)]: the non-missing occurrences are
    counted in the hash table, and the table is sorted by descending count
    with [Series.sort_values], which is library code: [sort_values] stands
    for it.  Its default sort is not a stable one, so nothing is fixed here
    about the order it leaves entries of equal count in. *)
Definition value_counts (sort_values : list (cell * nat) -> list (cell * nat))
           (ser : Series) : result (list (cell * nat)) :=
  if forallb hashable ser
  then Ok (sort_values (hash_count (dropna ser)))
  else Err TypeError.

(** What a sort by descending count gives: the entries it was given, by
    descending count. *)
Definition sorts_descending
           (sort_values : list (cell * nat) -> list (cell * nat)) : Prop :=
  forall l, Permutation l (sort_values l) /\
            StronglySorted (fun p q => snd q <= snd p) (sort_values l).

(** [count.index.tolist(), count.values.tolist()]. *)
Definition count_table (count : list (cell * nat)) : stat_value :=
  VCount (map fst count) (map snd count).

(** Modelled from the spec: [MultiCategoricalTensorMapper.split_by_sep] of
    [torch_frame/data/mapper.py], which is not part of the sources at hand
    (section 4.5: "each cell is first split into zero or more category
    tokens using a caller-supplied separator string").  An empty cell has
    no token; [skip] counts the characters of a separator still to pass. *)
Fixpoint split_on (sep : string) (skip : nat) (acc : string) (s : string)
  : list string :=
  match s with
  | EmptyString => [acc]
  | String c s' =>
      match skip with
      | S k => split_on sep k acc s'
      | 0 =>
          if (0 <? String.length sep) && String.prefix sep s
          then acc :: split_on sep (String.length sep - 1) "" s'
          else split_on sep 0 (acc ++ String c "") s'
      end
  end.

Definition split_by_sep (row : cell) (sep : string) : result (list cell) :=
  match row with
  | CStr "" => Ok []
  | CStr s => Ok (map CStr (split_on sep 0 "" s))
  | _ => Err TypeError
  end.

(** [Series.explode()]: one row per element; an empty list leaves one
    missing row. *)
Definition explode (rows : list (list cell)) : Series :=
  flat_map (fun r => match r with [] => [CNone] | _ => r end) rows.

Fixpoint list_min (d : Z) (l : list Z) : Z :=
  match l with
  | [] => d
  | x :: l' => Z.min x (list_min x l')
  end.

Fixpoint list_max (d : Z) (l : list Z) : Z :=
  match l with
  | [] => d
  | x :: l' => Z.max x (list_max x l')
  end.

Definition q_000 : float := S754_zero false.
Definition q_025 : float := S754_finite false 1 (-2).
Definition q_050 : float := S754_finite false 1 (-1).
Definition q_075 : float := S754_finite false 3 (-2).
Definition q_100 : float := S754_finite false 1 0.

Section Stats.
(** The NumPy reductions, the pandas date parser and the pandas sort are
    library code: [np.mean], [np.std] (population: [ddof=0]),
    [np.quantile], the year of [pd.to_datetime(ser, format=...)] and
    [Series.sort_values(ascending=False)]. *)
Variable np_mean : list float -> float.
Variable np_std : list float -> float.
Variable np_quantile : list float -> list float -> list float.
Variable to_datetime_year : option string -> cell -> result Z.
Variable sort_values : list (cell * nat) -> list (cell * nat).

Definition compute (self : StatType) (ser : Series) (sep : option string)
           (time_format : option string) : result stat_value :=
  match self with
  | MEAN =>
      flattened <- flatten ser ;;
      if negb (existsb isfinite flattened) then Ok (VFloat nan)
      else Ok (VFloat (np_mean (filter isfinite flattened)))
  | STD =>
      flattened <- flatten ser ;;
      if negb (existsb isfinite flattened) then Ok (VFloat nan)
      else Ok (VFloat (np_std (filter isfinite flattened)))
  | QUANTILES =>
      flattened <- flatten ser ;;
      if negb (existsb isfinite flattened)
      then Ok (VFloats [nan; nan; nan; nan; nan])
      else Ok (VFloats (np_quantile (filter isfinite flattened)
                                    [q_000; q_025; q_050; q_075; q_100]))
  | COUNT =>
      count <- value_counts sort_values ser ;;
      Ok (count_table count)
  | MULTI_COUNT =>
      match sep with
      | None => Err MissingSeparatorError
      | Some sep =>
          rows <- mapM (fun row => split_by_sep row sep) ser ;;
          count <- value_counts sort_values (dropna (explode rows)) ;;
          Ok (count_table count)
      end
  | YEAR_RANGE =>
      year_range <- mapM (to_datetime_year time_format) ser ;;
      match year_range with
      | [] => Err ValueError
      | y0 :: _ => Ok (VInts [list_min y0 year_range; list_max y0 year_range])
      end
  | EMB_DIM => Ok VNone
  end.

Definition compute_col_stats (ser : Series) (s : stype) (sep : option string)
           (time_format : option string)
  : result (list (StatType * stat_value)) :=
  let ser := if stype_eq_dec s numerical then mask_inf ser else ser in
  if forallb isnull ser then
    Ok (map (fun stat_type => (stat_type, _default_values stat_type))
            (stats_for_stype s))
  else
    mapM (fun stat_type =>
            v <- compute stat_type (dropna ser) sep time_format ;;
            Ok (stat_type, v))
         (stats_for_stype s).
End Stats.

(* ------------------------------------------------------------------ *)
(** ** Vocabulary of the statements *)

(** The targets the frames of a list carry, in input order. *)
Definition targets (tf_list : list TensorFrame) : list (list Z) :=
  flat_map (fun tf => match y tf with Some v => [v] | None => [] end) tf_list.

(** Some frame has a target and some frame has none. *)
Definition mixed_targets (tf_list : list TensorFrame) : bool :=
  existsb (fun tf => is_none (y tf)) tf_list &&
  existsb (fun tf => negb (is_none (y tf))) tf_list.

(** The column names of one semantic type over all inputs, in input
    order. *)
Definition combined_names (s : stype) (tf_list : list TensorFrame)
  : list string :=
  flat_map (fun tf => dd_lookup stype_eq_dec s (col_names_dict tf)) tf_list.

(** The keys of a frame's two dictionaries are unique, as those of any
    Python dictionary. *)
Definition wf_dicts (tf : TensorFrame) : Prop :=
  NoDup (keys (feat_dict tf)) /\ NoDup (keys (col_names_dict tf)).

(** Errors through which unequal row counts can surface: the size check of
    a storage concatenation, or the validation of the resulting frame. *)
Definition reports_row_count (e : exn) : bool :=
  match e with
  | TorchSizeError | RaggedSizeError | FrameInvariantError => true
  | _ => false
  end.

(** Whether an error message mentions a semantic type. *)
Definition names_stype (e : exn) (s : stype) : bool :=
  match e with
  | SchemaMismatch expected => mem stype_eq_dec s (keys expected)
  | DuplicateColumnError s' _ => if stype_eq_dec s s' then true else false
  | _ => false
  end.

(** Modelled from the spec: a registry of physical representations for the
    examples (section 1: ragged tensors for multi-valued categorical and
    variable-length sequence columns, dictionaries of named ragged tensors
    for multi-embedding columns, dense tensors otherwise). *)
Definition ragged_stype (s : stype) : bool :=
  match s with
  | multicategorical | sequence_numerical => true
  | _ => false
  end.

Definition group_stype (s : stype) : bool :=
  match s with
  | embedding => true
  | _ => false
  end.

Definition cat_ex := cat ragged_stype group_stype.

(** A frame with one dense storage of [n] rows and one column. *)
Definition dense_frame (s : stype) (name : string) (rows : list Z)
           (tgt : option (list Z)) : TensorFrame :=
  mkTensorFrame [(s, Dense (mkTensor (length rows) 1 rows))]
                [(s, [name])] tgt.

(** The count a table holds for an element, zero when it has none. *)
Definition cnt {K : Type} (K_eq_dec : forall a b : K, {a = b} + {a <> b})
           (x : K) (c : list (K * nat)) : nat :=
  match dict_get K_eq_dec x c with Some n => n | None => 0 end.

(** The entries of one semantic type in a dictionary, each through [g]. *)
Definition entries_of {A B} (g : stype * B -> list A) (s : stype)
           (d : list (stype * B)) : list A :=
  flat_map (fun kv => if stype_eq_dec s (fst kv) then g kv else []) d.

Definition one_storage (kv : stype * TensorData) : list TensorData :=
  [snd kv].

(** What a concatenation does to the row dimension: along the rows
    ([dim = 0]) the rows add up; along the columns ([dim = 1]) every input
    has the rows of the output. *)
Definition rows_through (dim : nat) (r : nat) (ns : list nat) : Prop :=
  (dim = 0 -> r = list_sum ns) /\ (dim = 1 -> Forall (eq r) ns).

(** A frequency table with every value replaced by its hash key. *)
Definition keyed (c : list (cell * nat)) : list (cell * nat) :=
  map (fun p => (hash_key (fst p), snd p)) c.

(** The number of cells of a column that are the value [c], the two float
    zeros taken as one value. *)
Definition key_count (ser : Series) (c : cell) : nat :=
  count_occ cell_eq_dec (map hash_key ser) (hash_key c).

(** The floats a numerical-like column holds, flattened, and the finite
    ones among them. *)
Definition flat_values (ser : Series) : list float :=
  flat_map (fun c => match c with
                     | CFloat f => [f]
                     | CList l => l
                     | _ => []
                     end) ser.

Definition finite_values (ser : Series) : list float :=
  filter isfinite (flat_values ser).

(** The record of a numerical-like column without a finite value. *)
Definition sentinel : list (StatType * stat_value) :=
  [(MEAN, VFloat nan); (STD, VFloat nan);
   (QUANTILES, VFloats [nan; nan; nan; nan; nan])].

(** The tokens of a multicategorical column: those of its non-missing
    cells, in order. *)
Definition tokens_of (sep : string) (ser : Series) : Series :=
  flat_map (fun c => match split_by_sep c sep with
                     | Ok toks => toks
                     | Err _ => []
                     end) (dropna ser).

(** A cell of a column of strings: a string or a missing value. *)
Definition str_or_null (c : cell) : bool :=
  match c with
  | CStr _ => true
  | _ => isnull c
  end.

(** A cell of a numerical-like column: a float, a sequence of floats, or a
    missing value. *)
Definition num_or_null (c : cell) : bool :=
  match c with
  | CFloat _ | CList _ | CNone => true
  | CStr _ => false
  end.

(** A cell that is a string. *)
Definition is_str (c : cell) : Prop := exists s, c = CStr s.

(** *** Frames and columns of the examples *)

(** Two rows and three rows of one numerical column, with a target. *)
Definition two_rows_y : TensorFrame :=
  dense_frame numerical "a" [1; 2]%Z (Some [10; 20]%Z).

Definition three_rows_y : TensorFrame :=
  dense_frame numerical "b" [3; 4; 5]%Z (Some [30; 40; 50]%Z).

(** The same without a target. *)
Definition two_rows : TensorFrame :=
  dense_frame numerical "a" [1; 2]%Z None.

Definition three_rows : TensorFrame :=
  dense_frame numerical "b" [3; 4; 5]%Z None.

(** Three rows of the column "a" again, and of a categorical column. *)
Definition three_rows_a : TensorFrame :=
  dense_frame numerical "a" [3; 4; 5]%Z None.

Definition three_rows_a_y : TensorFrame :=
  dense_frame numerical "a" [3; 4; 5]%Z (Some [30; 40; 50]%Z).

Definition two_rows_cat : TensorFrame :=
  dense_frame categorical "c" [7; 8]%Z None.

Definition three_rows_cat : TensorFrame :=
  dense_frame categorical "c" [7; 8; 9]%Z None.

(** Two rows with a numerical and a categorical column. *)
Definition two_rows_num_cat : TensorFrame :=
  mkTensorFrame
    [(numerical, Dense (mkTensor 2 1 [1; 2]%Z));
     (categorical, Dense (mkTensor 2 1 [7; 8]%Z))]
    [(numerical, ["a"]); (categorical, ["c"])]
    None.

(** One row of two numerical columns, in either order of the names. *)
Definition one_row_ab : TensorFrame :=
  mkTensorFrame [(numerical, Dense (mkTensor 1 2 [1; 2]%Z))]
                [(numerical, ["a"; "b"])] None.

Definition one_row_ba : TensorFrame :=
  mkTensorFrame [(numerical, Dense (mkTensor 1 2 [2; 1]%Z))]
                [(numerical, ["b"; "a"])] None.

(** One row of an embedding column stored under the given member names. *)
Definition group_frame (members : list string) : TensorFrame :=
  mkTensorFrame
    [(embedding, Group (map (fun name => (name, [[[1%Z]]])) members))]
    [(embedding, ["e"])] None.

Definition abacba : Series :=
  [CStr "a"; CStr "b"; CStr "a"; CStr "c"; CStr "b"; CStr "a"].

Definition xy_y_none : Series := [CStr "x/y"; CStr "y"; CNone].


(** Stand-ins for the library functions, where an example needs some. *)
Definition any_reduction (l : list float) : float := nan.
Definition any_quantile (l q : list float) : list float := q.
Definition any_year (fmt : option string) (c : cell) : result Z := Ok 0%Z.

(** Two sorts by descending count: both insert the entries from the last
    to the first, one before the entries of equal count, which keeps equal
    counts in the order given, and one after them, which reverses it. *)
Fixpoint insert_before (p : cell * nat) (l : list (cell * nat))
  : list (cell * nat) :=
  match l with
  | [] => [p]
  | q :: l' =>
      if snd q <=? snd p then p :: q :: l' else q :: insert_before p l'
  end.

Definition stable_sort (l : list (cell * nat)) : list (cell * nat) :=
  fold_right insert_before [] l.



(** A parser of dates written year first: the year is the number the
    first four characters spell. *)
Definition digit_of (a : ascii) : option Z :=
  let n := nat_of_ascii a in
  if (48 <=? n) && (n <=? 57) then Some (Z.of_nat (n - 48)) else None.

Fixpoint number_of (acc : Z) (k : nat) (s : string) : option Z :=
  match k with
  | 0 => Some acc
  | S k' =>
      match s with
      | String a s' =>
          match digit_of a with
          | Some d => number_of (acc * 10 + d) k' s'
          | None => None
          end
      | EmptyString => None
      end
  end.

Definition iso_year (fmt : option string) (c : cell) : result Z :=
  match c with
  | CStr s =>
      match number_of 0 4 s with
      | Some year => Ok year
      | None => Err ValueError
      end
  | _ => Err TypeError
  end.

Definition col_stats_ex :=
  compute_col_stats any_reduction any_reduction any_quantile any_year
                    stable_sort.

(* ------------------------------------------------------------------ *)
(** ** Further vocabulary *)

(** Errors raised inside [_cat_helper]: by a storage concatenation, or by
    a storage that is not of the kind its semantic type declares. *)
Definition storage_error (e : exn) : bool :=
  match e with
  | TypeError | IndexError | KeyError _ | TorchSizeError | RaggedSizeError =>
      true
  | _ => false
  end.

(** A storage of the kind its semantic type declares; the member names of
    a dictionary are unique. *)
Definition kind_ok (um ud : stype -> bool) (s : stype) (d : TensorData)
  : bool :=
  if um s then match d with Ragged _ => true | _ => false end
  else if ud s then
    match d with
    | Group g => nodupb string_dec (keys g)
    | _ => false
    end
  else match d with Dense _ => true | _ => false end.

Definition well_kinded (um ud : stype -> bool) (tf : TensorFrame) : bool :=
  forallb (fun kv => kind_ok um ud (fst kv) (snd kv)) (feat_dict tf).

Definition has_y (tf : TensorFrame) : bool := negb (is_none (y tf)).

(** Errors raised inside [_cat_helper] along the columns: the size error
    of a storage concatenation, the error of a storage that is not of the
    kind its semantic type declares, or that of a member name a dictionary
    lacks. *)
Definition col_storage_error (e : exn) : bool :=
  match e with
  | TypeError | KeyError _ | TorchSizeError | RaggedSizeError => true
  | _ => false
  end.

(** The first entry of a dictionary of name lists that repeats a name. *)
Definition first_duplicated (d : list (stype * list string))
  : option (stype * list string) :=
  find (fun kv => 0 <? length (_get_duplicates (snd kv))) d.

(** A cell that is a float or missing. *)
Definition float_or_none (c : cell) : bool :=
  match c with
  | CFloat _ | CNone => true
  | _ => false
  end.

(** A cell that is missing or an infinity. *)
Definition null_or_inf (c : cell) : bool :=
  match c with
  | CFloat f => isnull c || isinf f
  | _ => isnull c
  end.

(** The statistics of a numerical-like column over given finite values. *)
Definition numeric_record (np_mean np_std : list float -> float)
           (np_quantile : list float -> list float -> list float)
           (fin : list float) : list (StatType * stat_value) :=
  [(MEAN, VFloat (np_mean fin)); (STD, VFloat (np_std fin));
   (QUANTILES,
    VFloats (np_quantile fin [q_000; q_025; q_050; q_075; q_100]))].

(* ------------------------------------------------------------------ *)
(** ** Input of the CatBoost wrapper ([torch_frame/gbdt/tuned_catboost.py]) *)

(** What [_to_catboost_input] raises. *)
Inductive catboost_exn :=
| TargetRequired
    (* assert y is not None *)
| NotATensor
    (* .numpy() on a storage that is not a dense tensor *)
| EmptyFrame
    (* ValueError: "The input TensorFrame object is empty." *)
| NothingToConcatenate.
    (* np.concatenate(cat_features): need at least one array *)

Inductive attempt (A : Type) :=
| Done (a : A)
| Raised (e : catboost_exn).

Arguments Done {A} a.
Arguments Raised {A} e.

(** A [pandas.DataFrame] over the default index: its labelled columns; a
    cell is missing where a shorter frame was aligned with a longer one. *)
Definition DataFrame := list (nat * list (option Z)).

Definition tensor_column (t : Tensor) (j : nat) : list Z :=
  map (fun i => nth (i * size1 t + j) (values t) 0%Z) (seq 0 (size0 t)).

(** [pd.DataFrame(feat, columns=arange)]. *)
Definition pd_DataFrame (feat : Tensor) (columns : list nat) : DataFrame :=
  combine columns
          (map (fun j => map Some (tensor_column feat j)) (seq 0 (size1 feat))).

Definition pad_column (n : nat) (c : list (option Z)) : list (option Z) :=
  c ++ repeat None (n - length c).

(** [pd.concat(dfs, axis=1)]: the columns side by side, over the union of
    the indices. *)
Definition pd_concat (dfs : list DataFrame) : DataFrame :=
  let cols := concat dfs in
  let n := List.list_max (map (fun c => length (snd c)) cols) in
  map (fun c => (fst c, pad_column n (snd c))) cols.

(** One [if stype.X in tf.feat_dict:] block of [_to_catboost_input]; the
    state is [dfs], [cat_features] and [offset]. *)
Definition catboost_block (tf : TensorFrame) (s : stype) (is_cat : bool)
           (st : list DataFrame * list (list nat) * nat)
  : attempt (list DataFrame * list (list nat) * nat) :=
  let '(dfs, cat_features, offset) := st in
  match sget s (feat_dict tf) with
  | None => Done st
  | Some (Dense feat) =>
      let arange := seq offset (size1 feat) in
      Done (dfs ++ [pd_DataFrame feat arange],
            if is_cat then cat_features ++ [arange] else cat_features,
            offset + size1 feat)
  | Some _ => Raised NotATensor
  end.

Definition attempt_bind {A B} (r : attempt A) (k : A -> attempt B)
  : attempt B :=
  match r with
  | Done a => k a
  | Raised e => Raised e
  end.

(** [CatBoost._to_catboost_input]: the data frame, the target and the
    indices of the categorical columns.  [tf.cpu()] and [.numpy()] leave
    the values as they are; a text-embedded tensor is taken as already
    flattened to two dimensions, which is what
    [feat.view(feat.size(0), -1)] returns. *)
Definition _to_catboost_input (tf : TensorFrame)
  : attempt (DataFrame * list Z * list nat) :=
  match y tf with
  | None => Raised TargetRequired
  | Some tgt =>
      attempt_bind (catboost_block tf categorical true ([], [], 0))
        (fun st1 =>
      attempt_bind (catboost_block tf numerical false st1)
        (fun st2 =>
      attempt_bind (catboost_block tf text_embedded false st2)
        (fun st3 =>
      let '(dfs, cat_features, _) := st3 in
      if length dfs =? 0 then Raised EmptyFrame
      else
        let df := pd_concat dfs in
        match cat_features with
        | [] => Raised NothingToConcatenate
        | _ => Done (df, tgt, concat cat_features)
        end)))
  end.

(** The number of columns a frame stores under a semantic type as a dense
    tensor; zero when it has none. *)
Definition dense_width (tf : TensorFrame) (s : stype) : nat :=
  match sget s (feat_dict tf) with
  | Some (Dense feat) => size1 feat
  | _ => 0
  end.

Definition stores (tf : TensorFrame) (s : stype) : bool :=
  negb (is_none (sget s (feat_dict tf))).

(** The three semantic types the wrapper reads are stored as tensors. *)
Definition catboost_ready (tf : TensorFrame) : bool :=
  forallb (fun s => match sget s (feat_dict tf) with
                    | Some (Dense _) | None => true
                    | Some _ => false
                    end) [categorical; numerical; text_embedded].

(** *** Further examples *)

(** Two rows with a numerical and a categorical column, and a target. *)
Definition two_rows_num_cat_y : TensorFrame :=
  mkTensorFrame (feat_dict two_rows_num_cat) (col_names_dict two_rows_num_cat)
                (Some [10; 20]%Z).

(** A column of floats with an infinite and a missing cell, a column of
    sequences, and one whose only sequence is empty. *)
Definition floats_inf_none : Series :=
  [CFloat q_025; CFloat (S754_infinity false); CNone].

Definition sequences : Series := [CList [q_025; nan]; CNone].

Definition empty_sequences : Series := [CList []; CNone].

(** Two and three rows of a ragged column, and of an embedding column
    stored under one member name. *)
Definition two_rows_rag : TensorFrame :=
  mkTensorFrame [(multicategorical, Ragged [[[1%Z]]; [[2%Z]]])]
                [(multicategorical, ["r"])] None.

Definition three_rows_rag : TensorFrame :=
  mkTensorFrame [(multicategorical, Ragged [[[3%Z]]; [[4%Z]]; [[5%Z]]])]
                [(multicategorical, ["q"])] None.

Definition two_rows_m1 : TensorFrame :=
  mkTensorFrame [(embedding, Group [("m1", [[[1%Z]]; [[2%Z]]])])]
                [(embedding, ["e"])] None.

Definition three_rows_m2 : TensorFrame :=
  mkTensorFrame [(embedding, Group [("m2", [[[3%Z]]; [[4%Z]]; [[5%Z]]])])]
                [(embedding, ["f"])] None.

Definition three_dates : Series :=
  [CStr "2020-01-01"; CStr "2019-03-01"; CStr "2021-06-30"].

(* ================================================================== *)
(** * Properties *)

Unset Implicit Arguments.

(** ** The error monad *)

Lemma bind_ok_inv {A B} (r : result A) (k : A -> result B) (b : B) :
  bind r k = Ok b -> exists a, r = Ok a /\ k a = Ok b.
Proof. destruct r as [a|e]; simpl; intros H; [eauto | discriminate]. Qed.

Ltac bind_inv H :=
  let a := fresh "a" in
  let Ha := fresh "Hstep" in
  apply bind_ok_inv in H; destruct H as (a & Ha & H).

Lemma mapM_ok_In {A B} (f : A -> result B) l r :
  mapM f l = Ok r -> forall a, In a l -> exists b, f a = Ok b /\ In b r.
Proof.
  revert r; induction l as [|x l IH]; simpl; intros r H a Hin; [tauto|].
  bind_inv H. bind_inv H. injection H as <-.
  destruct Hin as [<-|Hin].
  - exists a0; simpl; auto.
  - destruct (IH _ Hstep0 _ Hin) as (b & Hb & Hbr). exists b; simpl; auto.
Qed.

Lemma mapM_ok_Forall2 {A B} (f : A -> result B) l r :
  mapM f l = Ok r -> Forall2 (fun a b => f a = Ok b) l r.
Proof.
  revert r; induction l as [|x l IH]; simpl; intros r H.
  - injection H as <-. constructor.
  - bind_inv H. bind_inv H. injection H as <-. constructor; auto.
Qed.

(** ** Dictionaries *)

Section DictFacts.
Context {K : Type} (K_eq_dec : forall a b : K, {a = b} + {a <> b}).

Lemma mem_true_iff (k : K) l : mem K_eq_dec k l = true <-> In k l.
Proof. unfold mem. destruct (in_dec K_eq_dec k l); split; auto; discriminate. Qed.

Lemma nodupb_NoDup (l : list K) : nodupb K_eq_dec l = true <-> NoDup l.
Proof.
  induction l as [|k l IH]; simpl.
  - split; auto using NoDup_nil.
  - rewrite andb_true_iff, negb_true_iff, IH. split.
    + intros [Hm Hn]. constructor; auto.
      intros Hin. apply mem_true_iff in Hin. congruence.
    + intros Hn. inversion Hn; subst. split; auto.
      destruct (mem K_eq_dec k l) eqn:E; auto.
      apply mem_true_iff in E. contradiction.
Qed.

Context {V : Type}.

Lemma dict_get_In k (d : list (K * V)) v :
  dict_get K_eq_dec k d = Some v -> In (k, v) d.
Proof.
  induction d as [|[k' v'] d IH]; simpl; [discriminate|].
  destruct (K_eq_dec k k') as [->|]; intros H.
  - injection H as ->. auto.
  - auto.
Qed.

Lemma dict_get_None k (d : list (K * V)) :
  dict_get K_eq_dec k d = None <-> ~ In k (keys d).
Proof.
  induction d as [|[k' v'] d IH]; simpl; [tauto|].
  destruct (K_eq_dec k k') as [->|Hne].
  - split; [discriminate | intros H; exfalso; auto].
  - rewrite IH. split; intros H; [intros [E|Hin]; [congruence | auto] | auto].
Qed.

Lemma In_dict_get k v (d : list (K * V)) :
  NoDup (keys d) -> In (k, v) d -> dict_get K_eq_dec k d = Some v.
Proof.
  induction d as [|[k' v'] d IH]; simpl; [tauto|].
  intros Hnd [E|Hin]; inversion Hnd; subst.
  - injection E as -> ->. destruct (K_eq_dec k k); congruence.
  - destruct (K_eq_dec k k') as [->|]; auto.
    exfalso. apply H1. change k' with (fst (k', v)). now apply in_map.
Qed.

Lemma dict_get_Some_key k (d : list (K * V)) v :
  dict_get K_eq_dec k d = Some v -> In k (keys d).
Proof.
  intros H. apply dict_get_In in H. change k with (fst (k, v)). now apply in_map.
Qed.

Lemma In_keys_dict_get k (d : list (K * V)) :
  In k (keys d) -> exists v, dict_get K_eq_dec k d = Some v.
Proof.
  intros Hin. destruct (dict_get K_eq_dec k d) eqn:E; eauto.
  apply dict_get_None in E. contradiction.
Qed.
End DictFacts.

Lemma list_eqb_string_eq (l1 l2 : list string) :
  list_eqb String.eqb l1 l2 = true <-> l1 = l2.
Proof.
  revert l2; induction l1 as [|a l1 IH]; intros [|b l2]; simpl;
    try (split; [discriminate|discriminate]); try tauto.
  rewrite andb_true_iff, String.eqb_eq, IH. split.
  - intros [-> ->]; reflexivity.
  - intros E; injection E; auto.
Qed.

(** Equality of dictionaries is equality of all lookups. *)
Lemma col_names_eqb_true d1 d2 :
  NoDup (keys d1) -> NoDup (keys d2) ->
  col_names_eqb d1 d2 = true -> forall s, sget s d1 = sget s d2.
Proof.
  unfold col_names_eqb, dict_eqb, sget. intros N1 N2 H s.
  apply andb_true_iff in H. destruct H as [Hlen Hall].
  apply Nat.eqb_eq in Hlen. rewrite forallb_forall in Hall.
  assert (Hsub : forall k v, dict_get stype_eq_dec k d1 = Some v ->
                             dict_get stype_eq_dec k d2 = Some v).
  { intros k v Hk. apply dict_get_In in Hk. specialize (Hall _ Hk). simpl in Hall.
    destruct (dict_get stype_eq_dec k d2) as [v'|]; [|discriminate].
    apply list_eqb_string_eq in Hall. now subst. }
  destruct (dict_get stype_eq_dec s d1) as [v|] eqn:E1.
  - symmetry. auto.
  - symmetry. apply dict_get_None. apply dict_get_None in E1.
    intros Hin. apply E1.
    assert (Hincl : incl (keys d1) (keys d2)).
    { intros k Hk. apply (In_keys_dict_get stype_eq_dec) in Hk.
      destruct Hk as [v Hv]. eapply dict_get_Some_key; eauto. }
    apply (NoDup_length_incl N1) in Hincl; [now apply Hincl|].
    unfold keys. rewrite !length_map. lia.
Qed.

(** ** Targets of a column concatenation *)

Lemma idx_enumerate (l : list TensorFrame) : forall k,
  let idxs := map fst (filter (fun p => negb (is_none (y (snd p))))
                              (enumerate_from k l)) in
  Forall (fun i => k <= i) idxs /\
  map (fun i => match nth_error l (i - k) with
                | Some tf => y tf
                | None => None
                end) idxs = map Some (targets l).
Proof.
  induction l as [|a l IH]; intros k; simpl.
  - split; constructor.
  - destruct (IH (S k)) as [Hge Hmap]. simpl in Hge, Hmap.
    assert (Hshift :
      map (fun i => match nth_error (a :: l) (i - k) with
                    | Some tf => y tf | None => None end)
          (map fst (filter (fun p => negb (is_none (y (snd p))))
                           (enumerate_from (S k) l)))
      = map Some (targets l)).
    { rewrite <- Hmap. apply map_ext_in. intros i Hi.
      rewrite Forall_forall in Hge. specialize (Hge _ Hi).
      replace (i - k) with (S (i - S k)) by lia. reflexivity. }
    assert (Hge' : Forall (fun i => k <= i)
                     (map fst (filter (fun p => negb (is_none (y (snd p))))
                                      (enumerate_from (S k) l)))).
    { eapply Forall_impl; [|exact Hge]. simpl. intros; lia. }
    unfold targets; simpl. fold (targets l).
    destruct (y a) as [v|] eqn:Ey; simpl.
    + split; [constructor; auto|].
      rewrite Nat.sub_diag. simpl. rewrite Ey. f_equal. exact Hshift.
    + split; assumption.
Qed.

Lemma idx_targets (l : list TensorFrame) :
  map (fun i => match nth_error l i with
                | Some tf => y tf
                | None => None
                end) (idx_with_non_nan_y l) = map Some (targets l).
Proof.
  destruct (idx_enumerate l 0) as [_ H]. simpl in H.
  unfold idx_with_non_nan_y. rewrite <- H.
  apply map_ext. intros i. now rewrite Nat.sub_0_r.
Qed.

Lemma col_target_ambiguous l :
  2 <= length (targets l) -> col_target l = Err AmbiguousTargetError.
Proof.
  intros H. pose proof (idx_targets l) as E.
  apply (f_equal (@length _)) in E. rewrite !length_map in E.
  unfold col_target. destruct (idx_with_non_nan_y l) as [|i [|j r]]; simpl in *;
    try lia. reflexivity.
Qed.

Lemma col_target_ok l tgt :
  col_target l = Ok tgt ->
  (targets l = [] /\ tgt = None) \/ (exists v, targets l = [v] /\ tgt = Some v).
Proof.
  pose proof (idx_targets l) as E. unfold col_target.
  destruct (idx_with_non_nan_y l) as [|i [|j r]]; simpl in *.
  - intros H. injection H as <-. left. split; auto.
    destruct (targets l); [reflexivity | discriminate].
  - destruct (nth_error l i) as [tf|]; [|discriminate].
    intros H. injection H as <-. right.
    destruct (targets l) as [|v [|w r]]; try discriminate.
    injection E as E. eauto.
  - discriminate.
Qed.

Lemma col_target_total l :
  length (targets l) <= 1 -> exists tgt, col_target l = Ok tgt.
Proof.
  intros H. pose proof (idx_targets l) as E.
  pose proof (f_equal (@length _) E) as EL. rewrite !length_map in EL.
  unfold col_target.
  destruct (idx_with_non_nan_y l) as [|i [|j r]]; simpl in *; try lia; eauto.
  destruct (nth_error l i) as [tf|]; eauto.
  destruct (targets l) as [|v r]; discriminate.
Qed.

Section ConcatFacts.
Variable um : stype -> bool.
Variable ud : stype -> bool.

Lemma new_TensorFrame_ok feat names tgt out :
  new_TensorFrame feat names tgt = Ok out ->
  out = mkTensorFrame feat names tgt /\ frame_ok feat names tgt = true.
Proof.
  unfold new_TensorFrame. destruct (frame_ok feat names tgt); [|discriminate].
  intros H. injection H as <-. auto.
Qed.

Lemma cat_col_unfold tf_list :
  tf_list <> [] -> cat um ud tf_list "col" = _cat_col um ud tf_list.
Proof. destruct tf_list; [congruence | reflexivity]. Qed.

Lemma cat_row_unfold tf_list :
  tf_list <> [] -> cat um ud tf_list "row" = _cat_row um ud tf_list.
Proof. destruct tf_list; [congruence | reflexivity]. Qed.

Lemma cat_ok_nonempty tf_list along out :
  cat um ud tf_list along = Ok out -> tf_list <> [].
Proof. destruct tf_list; [discriminate | congruence]. Qed.

Lemma cat_col_ok_inv tf_list out :
  cat um ud tf_list "col" = Ok out ->
  col_target tf_list = Ok (y out) /\
  check_duplicates (merged_col_names tf_list) = Ok tt /\
  _cat_helper um ud tf_list 1 = Ok (feat_dict out) /\
  col_names_dict out = merged_col_names tf_list /\
  valid out = true.
Proof.
  intros H. pose proof (cat_ok_nonempty _ _ _ H) as Hne.
  rewrite cat_col_unfold in H by assumption. unfold _cat_col in H.
  bind_inv H. bind_inv H. bind_inv H.
  apply new_TensorFrame_ok in H. destruct H as [-> Hok]. simpl.
  destruct a0. auto.
Qed.

Lemma col_target_one l v : targets l = [v] -> col_target l = Ok (Some v).
Proof.
  intros Ht. destruct (col_target_total l) as [tgt Hc].
  { rewrite Ht. simpl. lia. }
  rewrite Hc. destruct (col_target_ok _ _ Hc) as [[E _]|(w & E & ->)];
    congruence.
Qed.

Lemma col_target_none l : targets l = [] -> col_target l = Ok None.
Proof.
  intros Ht. destruct (col_target_total l) as [tgt Hc].
  { rewrite Ht. simpl. lia. }
  rewrite Hc. destruct (col_target_ok _ _ Hc) as [[_ ->]|(w & E & _)];
    congruence.
Qed.

Lemma targets_nonempty l v : targets l = [v] -> l <> [].
Proof. intros H ->. discriminate. Qed.

(** C2: a column concatenation of frames of which more than one carries a
    target fails with the ambiguous-target error.  When exactly one input
    carries a target, the target step returns that target and the
    concatenation is the rest of [_cat_col] (the duplicate check, the
    storages, the constructor) run with it: whenever it returns, the
    result's target is that target.  When no input carries one, the
    same holds with no target. *)
Theorem cat_col_target_handling (tf_list : list TensorFrame) :
  (2 <= length (targets tf_list) ->
   cat um ud tf_list "col" = Err AmbiguousTargetError) /\
  (forall v, targets tf_list = [v] ->
     col_target tf_list = Ok (Some v) /\
     cat um ud tf_list "col" =
       (_ <- check_duplicates (merged_col_names tf_list) ;;
        feat <- _cat_helper um ud tf_list 1 ;;
        new_TensorFrame feat (merged_col_names tf_list) (Some v)) /\
     forall out, cat um ud tf_list "col" = Ok out -> y out = Some v) /\
  (targets tf_list = [] ->
     col_target tf_list = Ok None /\
     (tf_list <> [] ->
      cat um ud tf_list "col" =
        (_ <- check_duplicates (merged_col_names tf_list) ;;
         feat <- _cat_helper um ud tf_list 1 ;;
         new_TensorFrame feat (merged_col_names tf_list) None)) /\
     forall out, cat um ud tf_list "col" = Ok out -> y out = None).
Proof.
  split; [|split].
  - intros H. rewrite cat_col_unfold.
    + unfold _cat_col. now rewrite col_target_ambiguous.
    + intros ->. simpl in H. lia.
  - intros v Ht. pose proof (col_target_one _ _ Ht) as Hc.
    split; [exact Hc|]. split.
    + rewrite cat_col_unfold by (eapply targets_nonempty; eauto).
      unfold _cat_col. rewrite Hc. reflexivity.
    + intros out H. apply cat_col_ok_inv in H. destruct H as (Hc' & _).
      congruence.
  - intros Ht. pose proof (col_target_none _ Ht) as Hc.
    split; [exact Hc|]. split.
    + intros Hne. rewrite cat_col_unfold by assumption.
      unfold _cat_col. rewrite Hc. reflexivity.
    + intros out H. apply cat_col_ok_inv in H. destruct H as (Hc' & _).
      congruence.
Qed.

(** ** Checks of a row concatenation *)

Lemma forallb_false_In {A} (p : A -> bool) l a :
  In a l -> p a = false -> forallb p l = false.
Proof.
  intros Hin Hp. destruct (forallb p l) eqn:E; auto.
  rewrite forallb_forall in E. rewrite E in Hp; auto.
Qed.

Lemma forallb_negb_existsb {A} (p q : A -> bool) l :
  (forall a, q a = negb (p a)) -> forallb p l = negb (existsb q l).
Proof.
  intros Hq. induction l as [|a l IH]; simpl; auto.
  rewrite IH, Hq. destruct (p a); reflexivity.
Qed.

Lemma check_col_names_differs tf0 rest :
  NoDup (keys (col_names_dict tf0)) ->
  Forall (fun tf => NoDup (keys (col_names_dict tf))) rest ->
  (exists tf s, In tf rest /\
                sget s (col_names_dict tf) <> sget s (col_names_dict tf0)) ->
  check_col_names tf0 rest = Err (SchemaMismatch (col_names_dict tf0)).
Proof.
  intros N0 Nr (tf & s & Hin & Hne). unfold check_col_names.
  rewrite (forallb_false_In _ rest tf Hin); auto.
  destruct (col_names_eqb (col_names_dict tf) (col_names_dict tf0)) eqn:E; auto.
  exfalso. apply Hne. apply col_names_eqb_true; auto.
  rewrite Forall_forall in Nr. auto.
Qed.

(** C4, as the code has it: a row concatenation in which a later frame's
    column-name mapping differs from the first frame's at some semantic
    type (other names, another order of the names, or a type only one of
    them has) fails with the schema error, whose message carries the first
    frame's whole mapping. *)
Theorem cat_row_schema_mismatch (tf0 : TensorFrame) (rest : list TensorFrame) :
  NoDup (keys (col_names_dict tf0)) ->
  Forall (fun tf => NoDup (keys (col_names_dict tf))) rest ->
  (exists tf s, In tf rest /\
                sget s (col_names_dict tf) <> sget s (col_names_dict tf0)) ->
  cat um ud (tf0 :: rest) "row" = Err (SchemaMismatch (col_names_dict tf0)).
Proof.
  intros N0 Nr Hd. rewrite cat_row_unfold by discriminate.
  unfold _cat_row. now rewrite check_col_names_differs.
Qed.

Lemma check_y_mixed tf0 rest :
  check_y tf0 (tf0 :: rest) = Ok tt <-> mixed_targets (tf0 :: rest) = false.
Proof.
  unfold check_y, mixed_targets.
  destruct (y tf0) as [v|] eqn:E0.
  - rewrite (forallb_negb_existsb _ (fun tf => is_none (y tf)))
      by (intros; now rewrite negb_involutive).
    cbn [existsb]. rewrite E0. cbn [is_none negb orb].
    rewrite andb_true_r.
    destruct (existsb (fun tf => is_none (y tf)) rest); simpl;
      split; congruence.
  - rewrite (forallb_negb_existsb _ (fun tf => negb (is_none (y tf))))
      by reflexivity.
    cbn [existsb]. rewrite E0. cbn [is_none negb orb andb].
    destruct (existsb (fun tf => negb (is_none (y tf))) rest); simpl;
      split; congruence.
Qed.

(** C9, as the code has it: the target check of a row concatenation passes
    exactly when all frames have a target or none has; frames of which some
    have a target and some have none make the concatenation fail, with the
    target error when the column-name check, which runs first, passes and
    with the schema error otherwise. *)
Theorem cat_row_target_check (tf0 : TensorFrame) (rest : list TensorFrame) :
  (check_y tf0 (tf0 :: rest) = Ok tt <-> mixed_targets (tf0 :: rest) = false) /\
  (mixed_targets (tf0 :: rest) = true ->
   check_col_names tf0 rest = Ok tt ->
   exists b, cat um ud (tf0 :: rest) "row" = Err (TargetMismatch b)) /\
  (mixed_targets (tf0 :: rest) = true ->
   check_col_names tf0 rest <> Ok tt ->
   cat um ud (tf0 :: rest) "row" = Err (SchemaMismatch (col_names_dict tf0))).
Proof.
  split; [apply check_y_mixed | split].
  - intros Hm Hc. rewrite cat_row_unfold by discriminate.
    unfold _cat_row. rewrite Hc. cbn [bind].
    destruct (check_y tf0 (tf0 :: rest)) as [[]|e] eqn:E.
    + apply check_y_mixed in E. congruence.
    + cbn [bind]. unfold check_y in E.
      destruct (y tf0);
        match type of E with
        | (if ?c then _ else _) = _ => destruct c
        end; try discriminate; injection E as <-; eauto.
  - intros _ Hc. rewrite cat_row_unfold by discriminate.
    unfold _cat_row. unfold check_col_names in *.
    destruct (forallb _ rest); [congruence | reflexivity].
Qed.

(** ** Occurrence counts and duplicates *)

Section CountFacts.
Context {K : Type} (K_eq_dec : forall a b : K, {a = b} + {a <> b}).

Lemma cnt_count_add x y c :
cnt K_eq_dec y (count_add K_eq_dec x c) =
cnt K_eq_dec y c + (if K_eq_dec x y then 1 else 0).
Proof.
unfold cnt. induction c as [|[k n] c IH]; simpl.
- destruct (K_eq_dec y x), (K_eq_dec x y); try congruence; reflexivity.
- destruct (K_eq_dec x k) as [->|Hxk]; simpl.
  + destruct (K_eq_dec y k) as [->|Hyk].
    * destruct (K_eq_dec k k); [lia | congruence].
    * destruct (K_eq_dec k y); [congruence | lia].
  + destruct (K_eq_dec y k) as [->|Hyk].
    * destruct (K_eq_dec x k); [congruence | lia].
    * apply IH.
Qed.

Lemma In_keys_count_add x k c :
In k (keys (count_add K_eq_dec x c)) <-> k = x \/ In k (keys c).
Proof.
induction c as [|[k' n] c IH]; simpl.
- intuition.
- destruct (K_eq_dec x k') as [->|Hne]; simpl.
  + intuition.
  + rewrite IH. intuition.
Qed.

Lemma NoDup_keys_count_add x c :
NoDup (keys c) -> NoDup (keys (count_add K_eq_dec x c)).
Proof.
induction c as [|[k n] c IH]; simpl; intros N.
- constructor; [simpl; tauto | constructor].
- inversion N; subst.
  destruct (K_eq_dec x k) as [->|Hne]; simpl.
  + constructor; auto.
  + constructor; auto. rewrite In_keys_count_add. intros [E|Hin]; auto.
Qed.

Lemma count_items_acc l : forall acc,
NoDup (keys acc) ->
NoDup (keys (fold_left (fun c x => count_add K_eq_dec x c) l acc)) /\
forall y, cnt K_eq_dec y (fold_left (fun c x => count_add K_eq_dec x c) l acc)
          = cnt K_eq_dec y acc + count_occ K_eq_dec l y.
Proof.
induction l as [|x l IH]; simpl; intros acc N.
- split; auto.
- destruct (IH (count_add K_eq_dec x acc) (NoDup_keys_count_add x acc N))
    as [N' H].
  split; auto. intros y. rewrite H, cnt_count_add.
  destruct (K_eq_dec x y); lia.
Qed.

Lemma count_items_NoDup l : NoDup (keys (count_items K_eq_dec l)).
Proof. apply count_items_acc. constructor. Qed.

Lemma count_items_cnt l y :
cnt K_eq_dec y (count_items K_eq_dec l) = count_occ K_eq_dec l y.
Proof.
unfold count_items. destruct (count_items_acc l [] (NoDup_nil _)) as [_ H].
now rewrite H.
Qed.

(** The table holds exactly the elements of the list, each with its number
  of occurrences. *)
Lemma In_count_items l x n :
In (x, n) (count_items K_eq_dec l) <->
n = count_occ K_eq_dec l x /\ 1 <= n.
Proof.
split.
- intros Hin.
  pose proof (In_dict_get K_eq_dec _ _ _ (count_items_NoDup l) Hin) as G.
  pose proof (count_items_cnt l x) as C. unfold cnt in C. rewrite G in C.
  split; auto. subst n.
  assert (Hk : In x (keys (count_items K_eq_dec l)))
    by (eapply dict_get_Some_key; eauto).
  clear G Hin. revert Hk. unfold count_items.
  assert (Hgen : forall acc,
    In x (keys (fold_left (fun c x => count_add K_eq_dec x c) l acc)) ->
    In x (keys acc) \/ In x l).
  { induction l as [|a l IH]; simpl; intros acc H; auto.
    apply IH in H. destruct H as [H|H]; auto.
    apply In_keys_count_add in H. destruct H as [->|H]; auto. }
  intros Hk. apply Hgen in Hk. destruct Hk as [[]|Hk].
  apply (count_occ_In K_eq_dec) in Hk. lia.
- intros [-> Hpos]. apply dict_get_In with (K_eq_dec := K_eq_dec).
  pose proof (count_items_cnt l x) as C. unfold cnt in C.
  destruct (dict_get K_eq_dec x (count_items K_eq_dec l)); [congruence | lia].
Qed.
End CountFacts.

Lemma In_get_duplicates lst n :
  In n (_get_duplicates lst) <-> 2 <= count_occ string_dec lst n.
Proof.
  unfold _get_duplicates, Counter. rewrite in_map_iff. split.
  - intros ([k c] & E & Hin). simpl in E. subst k.
    apply filter_In in Hin. destruct Hin as [Hin Hc]. simpl in Hc.
    apply Nat.ltb_lt in Hc. apply In_count_items in Hin. lia.
  - intros H. exists (n, count_occ string_dec lst n). split; auto.
    apply filter_In. split.
    + apply In_count_items. lia.
    + simpl. apply Nat.ltb_lt. lia.
Qed.

Lemma NoDup_get_duplicates lst : NoDup (_get_duplicates lst).
Proof.
  unfold _get_duplicates, Counter.
  pose proof (count_items_NoDup string_dec lst) as N. unfold keys in N.
  induction (count_items string_dec lst) as [|[k c] l IH]; simpl; [constructor|].
  inversion N; subst.
  destruct (1 <? c); simpl; auto.
  constructor; auto. intros Hin. apply H1.
  apply in_map_iff in Hin. destruct Hin as (p & E & Hp).
  apply filter_In in Hp. apply in_map_iff. exists p. tauto.
Qed.

(** ** Aggregation into a [defaultdict(list)] *)

Lemma dd_lookup_extend {A} s k (xs : list A) d :
  dd_lookup stype_eq_dec s (dd_extend stype_eq_dec k xs d) =
  dd_lookup stype_eq_dec s d ++ (if stype_eq_dec s k then xs else []).
Proof.
  unfold dd_lookup. induction d as [|[k' l] d IH]; simpl.
  - destruct (stype_eq_dec s k); reflexivity.
  - destruct (stype_eq_dec k k') as [->|Hkk]; simpl.
    + destruct (stype_eq_dec s k'); [reflexivity | now rewrite app_nil_r].
    + destruct (stype_eq_dec s k') as [->|Hsk].
      * destruct (stype_eq_dec k' k); [congruence | now rewrite app_nil_r].
      * apply IH.
Qed.

Lemma dd_lookup_fold_inner {A B} (g : stype * B -> list A) s d : forall acc,
  dd_lookup stype_eq_dec s
    (fold_left (fun acc kv => dd_extend stype_eq_dec (fst kv) (g kv) acc) d acc)
  = dd_lookup stype_eq_dec s acc ++ entries_of g s d.
Proof.
  unfold entries_of.
  induction d as [|kv d IH]; simpl; intros acc.
  - now rewrite app_nil_r.
  - rewrite IH, dd_lookup_extend, <- app_assoc. reflexivity.
Qed.

Lemma dd_lookup_fold_outer {A B T} (g : stype * B -> list A)
      (h : T -> list (stype * B)) s l : forall acc,
  dd_lookup stype_eq_dec s
    (fold_left
       (fun acc t =>
          fold_left (fun acc kv => dd_extend stype_eq_dec (fst kv) (g kv) acc)
                    (h t) acc) l acc)
  = dd_lookup stype_eq_dec s acc ++ flat_map (fun t => entries_of g s (h t)) l.
Proof.
  induction l as [|t l IH]; simpl; intros acc.
  - now rewrite app_nil_r.
  - rewrite IH, dd_lookup_fold_inner, <- app_assoc. reflexivity.
Qed.

Lemma entries_of_names s (d : list (stype * list string)) :
  NoDup (keys d) -> entries_of snd s d = dd_lookup stype_eq_dec s d.
Proof.
  unfold entries_of, dd_lookup.
  induction d as [|[k v] d IH]; simpl; intros N; auto.
  inversion N; subst.
  destruct (stype_eq_dec s k) as [->|Hne].
  - assert (E : dict_get stype_eq_dec k d = None) by now apply dict_get_None.
    rewrite IH, E by assumption. now rewrite app_nil_r.
  - simpl. auto.
Qed.

Lemma merged_col_names_lookup tf_list s :
  Forall (fun tf => NoDup (keys (col_names_dict tf))) tf_list ->
  dd_lookup stype_eq_dec s (merged_col_names tf_list) = combined_names s tf_list.
Proof.
  intros Hwf. unfold merged_col_names, combined_names.
  rewrite (dd_lookup_fold_outer snd col_names_dict). simpl.
  induction Hwf as [|tf l N _ IH]; simpl; auto.
  now rewrite IH, entries_of_names.
Qed.

(** ** Row dimensions through a storage concatenation *)

Lemma length_zip_rows a b :
  length b = length a -> length (zip_rows a b) = length a.
Proof.
  revert b; induction a as [|ra a IH]; intros [|rb b]; simpl; intros H;
    try discriminate; auto.
Qed.

Lemma length_fold_zip_rows rest : forall t0,
  forallb (fun t => length t =? length t0) rest = true ->
  length (fold_left zip_rows rest t0) = length t0.
Proof.
  induction rest as [|t rest IH]; simpl; intros t0 H; auto.
  apply andb_true_iff in H. destruct H as [Ht Hr]. apply Nat.eqb_eq in Ht.
  rewrite IH; rewrite length_zip_rows by assumption; auto.
Qed.

Lemma length_concat_sum {A} (ls : list (list A)) :
  length (concat ls) = list_sum (map (@length A) ls).
Proof.
  induction ls as [|l ls IH]; simpl; auto. now rewrite length_app, IH.
Qed.

Lemma mnt_cat_rows ts dim m :
  mnt_cat ts dim = Ok m -> rows_through dim (length m) (map (@length _) ts).
Proof.
  unfold mnt_cat, rows_through. destruct ts as [|t0 rest]; [discriminate|].
  destruct dim as [|[|dim]]; try discriminate.
  - intros H. injection H as <-. split; [|discriminate].
    intros _. apply (length_concat_sum (t0 :: rest)).
  - match goal with
    | |- context [forallb ?f rest] => destruct (forallb f rest) eqn:E
    end; [|discriminate].
    intros H. injection H as <-. split; [discriminate|]. intros _.
    rewrite length_fold_zip_rows by assumption.
    constructor; auto. rewrite forallb_forall in E.
    apply Forall_forall. intros n Hn. apply in_map_iff in Hn.
    destruct Hn as (t & <- & Ht). symmetry. apply Nat.eqb_eq. auto.
Qed.

Lemma torch_cat_rows ts dim t :
  torch_cat ts dim = Ok t -> rows_through dim (size0 t) (map size0 ts).
Proof.
  unfold torch_cat, rows_through. destruct ts as [|t0 rest]; [discriminate|].
  destruct dim as [|[|dim]]; try discriminate.
  - match goal with
    | |- context [forallb ?f rest] => destruct (forallb f rest)
    end; [|discriminate].
    intros H. injection H as <-. simpl. split; [auto | discriminate].
  - match goal with
    | |- context [forallb ?f rest] => destruct (forallb f rest) eqn:E
    end; [|discriminate].
    intros H. injection H as <-. simpl. split; [discriminate|]. intros _.
    constructor; auto. rewrite forallb_forall in E.
    apply Forall_forall. intros n Hn. apply in_map_iff in Hn.
    destruct Hn as (t & <- & Ht). symmetry. apply Nat.eqb_eq. auto.
Qed.

Lemma Forall2_map_r {A B C} (R : A -> C -> Prop) (f : B -> C) l1 l2 :
  Forall2 (fun a b => R a (f b)) l1 l2 -> Forall2 R l1 (map f l2).
Proof. induction 1; simpl; constructor; auto. Qed.

Lemma Forall2_impl {A B} (R1 R2 : A -> B -> Prop) l1 l2 :
  (forall a b, R1 a b -> R2 a b) -> Forall2 R1 l1 l2 -> Forall2 R2 l1 l2.
Proof. intros H. induction 1; constructor; auto. Qed.

Lemma cat_group_keys feat_list dim g g0 rest :
  feat_list = Group g0 :: rest ->
  cat_group feat_list dim = Ok g -> keys g = keys g0.
Proof.
  intros -> H. unfold cat_group in H. simpl in H.
  apply mapM_ok_Forall2 in H. unfold keys at 1.
  induction H as [|name [n m] l l' Hx _ IH]; simpl; auto.
  f_equal; auto.
  bind_inv Hx. bind_inv Hx. now injection Hx as <- _.
Qed.

(** Some row dimension [r] of the result comes from one row dimension of
    each input, provided the first input holds at least one tensor. *)
Lemma cat_feat_rows s feat_list dim d :
  cat_feat um ud s feat_list dim = Ok d ->
  (forall first rest, feat_list = first :: rest -> data_rows first <> []) ->
  exists r ns,
    In r (data_rows d) /\
    Forall2 (fun di ni => In ni (data_rows di)) feat_list ns /\
    rows_through dim r ns.
Proof.
  unfold cat_feat. intros H Hfirst.
  destruct (um s).
  - bind_inv H. bind_inv H. injection H as <-.
    exists (length a0), (map (@length _) a). split; [simpl; auto|].
    split; [|now apply mnt_cat_rows].
    apply Forall2_map_r. apply mapM_ok_Forall2 in Hstep.
    eapply Forall2_impl; [|exact Hstep].
    intros [| |] b Hb; try discriminate. injection Hb as <-. simpl; auto.
  - destruct (ud s).
    + bind_inv H. injection H as <-.
      unfold cat_group in Hstep.
      destruct feat_list as [|first rest]; [discriminate|].
      bind_inv Hstep. destruct first as [| |g0]; try discriminate.
      injection Hstep0 as <-.
      specialize (Hfirst _ _ eq_refl). simpl in Hfirst.
      destruct g0 as [|[name1 m1] g0]; [exfalso; now apply Hfirst|].
      destruct (mapM_ok_In _ _ _ Hstep name1 (or_introl eq_refl))
        as ([n1 mo] & Hf & Hing).
      bind_inv Hf. bind_inv Hf. injection Hf as <- <-.
      exists (length a1), (map (@length _) a0).
      split; [simpl; apply in_map_iff; exists (name1, a1); auto|].
      split; [|now apply mnt_cat_rows].
      apply Forall2_map_r. apply mapM_ok_Forall2 in Hstep0.
      eapply Forall2_impl; [|exact Hstep0].
      intros di t Ht. simpl in Ht. bind_inv Ht.
      destruct di as [| |gi]; try discriminate. injection Hstep2 as <-.
      unfold getitem in Ht.
      destruct (dict_get string_dec name1 gi) eqn:G; [|discriminate].
      injection Ht as <-. apply dict_get_In in G. simpl.
      apply in_map_iff. exists (name1, m). auto.
    + bind_inv H. bind_inv H. injection H as <-.
      exists (size0 a0), (map size0 a). split; [simpl; auto|].
      split; [|now apply torch_cat_rows].
      apply Forall2_map_r. apply mapM_ok_Forall2 in Hstep.
      eapply Forall2_impl; [|exact Hstep].
      intros [| |] b Hb; try discriminate. injection Hb as <-. simpl; auto.
Qed.

(** ** The storages [_cat_helper] collects *)

Lemma feat_list_dict_lookup tf_list s :
  dd_lookup stype_eq_dec s (feat_list_dict tf_list) =
  flat_map (fun tf => entries_of one_storage s (feat_dict tf)) tf_list.
Proof.
  unfold feat_list_dict.
  now rewrite (dd_lookup_fold_outer one_storage feat_dict).
Qed.

Lemma In_entries_one s v d :
  In v (entries_of one_storage s d) <-> In (s, v) d.
Proof.
  unfold entries_of. rewrite in_flat_map. split.
  - intros ([k w] & Hin & Hv). simpl in Hv.
    destruct (stype_eq_dec s k) as [->|]; [|destruct Hv].
    destruct Hv as [<-|[]]. assumption.
  - intros Hin. exists (s, v). split; auto. simpl.
    destruct (stype_eq_dec s s); [simpl; auto | congruence].
Qed.

Lemma entries_one_head s v d :
  sget s d = Some v -> exists tl, entries_of one_storage s d = v :: tl.
Proof.
  unfold sget, entries_of. induction d as [|[k w] d IH]; simpl; [discriminate|].
  destruct (stype_eq_dec s k) as [->|].
  - intros H. injection H as ->. simpl. eauto.
  - simpl. auto.
Qed.

Lemma entries_one_get s d :
  NoDup (keys d) ->
  entries_of one_storage s d =
  match sget s d with Some v => [v] | None => [] end.
Proof.
  unfold sget, entries_of. induction d as [|[k w] d IH]; simpl; intros N; auto.
  inversion N; subst.
  destruct (stype_eq_dec s k) as [->|].
  - simpl. f_equal.
    assert (E : dict_get stype_eq_dec k d = None) by now apply dict_get_None.
    rewrite IH, E by assumption. reflexivity.
  - simpl. auto.
Qed.

Lemma In_feat_list tf_list s v :
  In v (dd_lookup stype_eq_dec s (feat_list_dict tf_list)) <->
  exists tf, In tf tf_list /\ In (s, v) (feat_dict tf).
Proof.
  rewrite feat_list_dict_lookup, in_flat_map.
  split; intros (tf & H1 & H2); exists tf; split; auto;
    now apply In_entries_one.
Qed.

Lemma dd_lookup_nonempty {A} s (d : list (stype * list A)) :
  dd_lookup stype_eq_dec s d <> [] ->
  sget s d = Some (dd_lookup stype_eq_dec s d).
Proof.
  unfold dd_lookup, sget. destruct (dict_get stype_eq_dec s d); congruence.
Qed.

Lemma mapM_entries_lookup {V W} (f : stype -> V -> result W) l r s v :
  mapM (fun kv => d <- f (fst kv) (snd kv) ;; Ok (fst kv, d)) l = Ok r ->
  sget s l = Some v ->
  exists d, f s v = Ok d /\ sget s r = Some d.
Proof.
  unfold sget. revert r; induction l as [|[k w] l IH]; simpl; intros r H G;
    [discriminate|].
  bind_inv H. bind_inv H. injection H as <-.
  bind_inv Hstep. injection Hstep as <-. simpl.
  destruct (stype_eq_dec s k) as [->|].
  - injection G as <-. eauto.
  - eauto.
Qed.

Lemma cat_helper_lookup tf_list dim fd s l :
  _cat_helper um ud tf_list dim = Ok fd ->
  sget s (feat_list_dict tf_list) = Some l ->
  exists d, cat_feat um ud s l dim = Ok d /\ sget s fd = Some d.
Proof.
  unfold _cat_helper. intros H G.
  exact (mapM_entries_lookup (fun s l => cat_feat um ud s l dim) _ _ _ _ H G).
Qed.

(** ** What the constructor's validation gives *)

Lemma frame_ok_inv feat names tgt :
  frame_ok feat names tgt = true ->
  NoDup (keys feat) /\ NoDup (keys names) /\
  (forall s, In s (keys feat) <-> In s (keys names)) /\
  (forall s d, In (s, d) feat -> data_rows d <> []) /\
  exists n,
    hd_error (storage_rows feat) = Some n /\
    (forall s d r, In (s, d) feat -> In r (data_rows d) -> r = n) /\
    (forall v, tgt = Some v -> length v = n).
Proof.
  unfold frame_ok. rewrite !andb_true_iff.
  intros [[[[[[N1 N2] K1] K2] Hst] _] Hrows].
  apply nodupb_NoDup in N1. apply nodupb_NoDup in N2.
  rewrite forallb_forall in K1, K2, Hst.
  split; [assumption|]. split; [assumption|]. split; [|split].
  - intros s. split; intros Hin.
    + apply (mem_true_iff stype_eq_dec). auto.
    + apply (mem_true_iff stype_eq_dec). auto.
  - intros s d Hin E. specialize (Hst _ Hin). simpl in Hst.
    rewrite !andb_true_iff in Hst. destruct Hst as [[_ Hl] _].
    rewrite E in Hl. discriminate.
  - destruct (hd_error (storage_rows feat)) as [n|]; [|discriminate].
    exists n. apply andb_true_iff in Hrows. destruct Hrows as [Hall Hy].
    rewrite forallb_forall in Hall. split; [reflexivity|]. split.
    + intros s d r Hin Hr. symmetry. apply Nat.eqb_eq. apply Hall.
      unfold storage_rows. apply in_flat_map. exists (s, d). auto.
    + intros v ->. now apply Nat.eqb_eq.
Qed.

Lemma valid_first_storage tf :
  valid tf = true ->
  exists s d, sget s (feat_dict tf) = Some d /\ In (s, d) (feat_dict tf).
Proof.
  intros H. apply frame_ok_inv in H.
  destruct H as (_ & _ & _ & _ & n & Hn & _).
  destruct (feat_dict tf) as [|[s d] fd]; [discriminate|].
  exists s, d. unfold sget. simpl.
  destruct (stype_eq_dec s s); [auto | congruence].
Qed.

Lemma valid_rows tf :
  valid tf = true ->
  forall s d r, In (s, d) (feat_dict tf) -> In r (data_rows d) ->
                num_rows tf = Some r.
Proof.
  intros H s d r Hin Hr. apply frame_ok_inv in H.
  destruct H as (_ & _ & _ & _ & n & Hn & Hall & _).
  unfold num_rows. rewrite Hn. f_equal. symmetry. eauto.
Qed.

Lemma first_storage_nonempty tf_list s :
  Forall (fun tf => valid tf = true) tf_list ->
  forall first rest,
    dd_lookup stype_eq_dec s (feat_list_dict tf_list) = first :: rest ->
    data_rows first <> [].
Proof.
  intros Hv first rest E.
  assert (Hin : In first (dd_lookup stype_eq_dec s (feat_list_dict tf_list)))
    by (rewrite E; simpl; auto).
  apply In_feat_list in Hin. destruct Hin as (tf & Htf & Hin).
  rewrite Forall_forall in Hv. specialize (Hv _ Htf).
  apply frame_ok_inv in Hv. destruct Hv as (_ & _ & _ & Hne & _). eauto.
Qed.

Lemma Forall2_In_l {A B} (R : A -> B -> Prop) l1 l2 a :
  Forall2 R l1 l2 -> In a l1 -> exists b, In b l2 /\ R a b.
Proof.
  induction 1 as [|x y l1 l2 Hxy _ IH]; simpl; [tauto|].
  intros [<-|Hin]; [eauto|].
  destruct (IH Hin) as (b & Hb & Hr). eauto.
Qed.

(** ** Row counts of a column concatenation *)

Lemma cat_col_rows_of_input tf_list out tf :
  Forall (fun tf => valid tf = true) tf_list ->
  cat um ud tf_list "col" = Ok out ->
  In tf tf_list -> num_rows tf = num_rows out.
Proof.
  intros Hv H Htf. apply cat_col_ok_inv in H.
  destruct H as (_ & _ & Hh & _ & Hout).
  pose proof Hv as Hv'. rewrite Forall_forall in Hv'.
  destruct (valid_first_storage tf (Hv' _ Htf)) as (s & d0 & _ & Hin0).
  assert (Hl : In d0 (dd_lookup stype_eq_dec s (feat_list_dict tf_list))).
  { apply In_feat_list. eauto. }
  assert (Hne : dd_lookup stype_eq_dec s (feat_list_dict tf_list) <> []).
  { intros E. rewrite E in Hl. destruct Hl. }
  destruct (cat_helper_lookup _ _ _ _ _ Hh (dd_lookup_nonempty _ _ Hne))
    as (d & Hd & Hget).
  destruct (cat_feat_rows _ _ _ _ Hd (first_storage_nonempty tf_list s Hv))
    as (r & ns & Hr & Hf2 & Hthrough).
  destruct (Forall2_In_l _ _ _ _ Hf2 Hl) as (ni & Hni & Hrow).
  destruct Hthrough as [_ Hcol]. specialize (Hcol eq_refl).
  rewrite Forall_forall in Hcol. specialize (Hcol _ Hni). subst ni.
  rewrite (valid_rows tf (Hv' _ Htf) s d0 r Hin0 Hrow).
  symmetry. apply (valid_rows out Hout s d r); auto.
  apply dict_get_In in Hget. exact Hget.
Qed.

(** ** Result of a row concatenation *)

Lemma cat_y_targets l ys :
  mapM (fun tf => match y tf with
                  | Some v => Ok v
                  | None => Err TypeError
                  end) l = Ok ys ->
  ys = targets l.
Proof.
  revert ys; induction l as [|tf l IH]; simpl; intros ys H.
  - now injection H as <-.
  - bind_inv H. bind_inv H. injection H as <-.
    unfold targets; simpl. fold (targets l).
    destruct (y tf); [|discriminate]. injection Hstep as ->.
    simpl. f_equal. auto.
Qed.

Lemma cat_row_ok_inv tf_list out :
  cat um ud tf_list "row" = Ok out ->
  exists tf0 rest,
    tf_list = tf0 :: rest /\
    check_col_names tf0 rest = Ok tt /\
    check_y tf0 tf_list = Ok tt /\
    y out = (if forallb (fun tf => negb (is_none (y tf))) tf_list
             then Some (concat (targets tf_list)) else None) /\
    _cat_helper um ud tf_list 0 = Ok (feat_dict out) /\
    col_names_dict out = col_names_dict tf0 /\
    valid out = true.
Proof.
  intros H. pose proof (cat_ok_nonempty _ _ _ H) as Hne.
  rewrite cat_row_unfold in H by assumption.
  destruct tf_list as [|tf0 rest]; [congruence|].
  unfold _cat_row in H.
  bind_inv H. bind_inv H. bind_inv H. bind_inv H.
  apply new_TensorFrame_ok in H. destruct H as [-> Hok].
  destruct a, a0. exists tf0, rest. cbn [feat_dict col_names_dict y].
  repeat split; auto.
  pose proof Hstep0 as Hc. unfold check_y in Hc.
  destruct (y tf0) as [v0|] eqn:E0.
  - destruct (forallb (fun tf => negb (is_none (y tf))) (tf0 :: rest));
      [|discriminate].
    bind_inv Hstep1. injection Hstep1 as <-.
    unfold cat_y in Hstep3. bind_inv Hstep3. injection Hstep3 as <-.
    now rewrite (cat_y_targets _ _ Hstep1).
  - injection Hstep1 as <-. cbn [forallb]. rewrite E0. reflexivity.
Qed.

Lemma check_col_names_ok tf0 rest :
  check_col_names tf0 rest = Ok tt ->
  forall tf, In tf rest ->
             col_names_eqb (col_names_dict tf) (col_names_dict tf0) = true.
Proof.
  unfold check_col_names.
  destruct (forallb _ rest) eqn:E; [|discriminate].
  intros _ tf Hin. rewrite forallb_forall in E. auto.
Qed.

Lemma same_schema_has_storage tf0 tf s :
  valid tf0 = true -> valid tf = true ->
  col_names_eqb (col_names_dict tf) (col_names_dict tf0) = true ->
  In s (keys (feat_dict tf0)) -> In s (keys (feat_dict tf)).
Proof.
  intros V0 V E Hin.
  apply frame_ok_inv in V0. destruct V0 as (_ & N0 & K0 & _).
  apply frame_ok_inv in V. destruct V as (_ & N & K & _).
  apply K. apply K0 in Hin.
  apply (In_keys_dict_get stype_eq_dec) in Hin. destruct Hin as [v Hv].
  pose proof (col_names_eqb_true _ _ N N0 E s) as Hs. unfold sget in Hs.
  rewrite Hv in Hs. eapply dict_get_Some_key; eauto.
Qed.

Lemma storages_aligned s tf_list :
  Forall (fun tf => NoDup (keys (feat_dict tf)) /\
                    In s (keys (feat_dict tf))) tf_list ->
  Forall2 (fun tf di => In (s, di) (feat_dict tf)) tf_list
          (dd_lookup stype_eq_dec s (feat_list_dict tf_list)).
Proof.
  rewrite feat_list_dict_lookup.
  induction 1 as [|tf l [N Hin] _ IH]; simpl; [constructor|].
  rewrite entries_one_get by assumption.
  apply (In_keys_dict_get stype_eq_dec) in Hin. destruct Hin as [v Hv].
  unfold sget. rewrite Hv. simpl. constructor; auto.
  now apply dict_get_In in Hv.
Qed.

Lemma Forall2_compose_map {A B C} (R1 : A -> B -> Prop) (R2 : B -> C -> Prop)
      (f : A -> C) l1 l2 l3 :
  (forall a b c, In a l1 -> R1 a b -> R2 b c -> c = f a) ->
  Forall2 R1 l1 l2 -> Forall2 R2 l2 l3 -> l3 = map f l1.
Proof.
  intros Hf H12. revert l3.
  induction H12 as [|a b l1 l2 Hab _ IH]; intros l3 H23; inversion H23; subst;
    simpl; auto.
  f_equal.
  - eapply Hf; simpl; eauto.
  - apply IH; auto. intros; eapply Hf; simpl; eauto.
Qed.

(** C6: a successful row concatenation of valid frames has as many rows as
    its inputs together; its target is the concatenation of the inputs'
    targets in input order when all of them have one (and absent
    otherwise); its column names are the first input's, and so are its
    semantic types. *)
Theorem cat_row_result (tf_list : list TensorFrame) (out : TensorFrame) :
  Forall (fun tf => valid tf = true) tf_list ->
  cat um ud tf_list "row" = Ok out ->
  num_rows out = Some (list_sum (map nrows tf_list)) /\
  y out = (if forallb (fun tf => negb (is_none (y tf))) tf_list
           then Some (concat (targets tf_list)) else None) /\
  exists tf0 rest,
    tf_list = tf0 :: rest /\
    col_names_dict out = col_names_dict tf0 /\
    forall s, In s (keys (feat_dict out)) <-> In s (keys (feat_dict tf0)).
Proof.
  intros Hv H. apply cat_row_ok_inv in H.
  destruct H as (tf0 & rest & -> & Hcn & _ & Hy & Hh & Hnames & Hout).
  pose proof Hv as Hv'. rewrite Forall_forall in Hv'.
  assert (V0 : valid tf0 = true) by (apply Hv'; simpl; auto).
  split; [|split; [exact Hy|]].
  - destruct (valid_first_storage tf0 V0) as (s & d0 & Hget0 & Hin0).
    assert (Hal : Forall2 (fun tf di => In (s, di) (feat_dict tf)) (tf0 :: rest)
                    (dd_lookup stype_eq_dec s (feat_list_dict (tf0 :: rest)))).
    { apply storages_aligned. apply Forall_forall. intros tf Htf. split.
      - specialize (Hv' _ Htf). apply frame_ok_inv in Hv'. tauto.
      - destruct Htf as [<-|Htf].
        + eapply dict_get_Some_key; eauto.
        + apply (same_schema_has_storage tf0); auto.
          * apply Hv'; simpl; auto.
          * eapply check_col_names_ok; eauto.
          * eapply dict_get_Some_key; eauto. }
    assert (Hne : dd_lookup stype_eq_dec s (feat_list_dict (tf0 :: rest)) <> []).
    { intros E. rewrite E in Hal. inversion Hal. }
    destruct (cat_helper_lookup _ _ _ _ _ Hh (dd_lookup_nonempty _ _ Hne))
      as (d & Hd & Hget).
    destruct (cat_feat_rows _ _ _ _ Hd
                (first_storage_nonempty (tf0 :: rest) s Hv))
      as (r & ns & Hr & Hf2 & [Hsum _]).
    specialize (Hsum eq_refl).
    assert (Hns : ns = map nrows (tf0 :: rest)).
    { eapply Forall2_compose_map; [|exact Hal|exact Hf2].
      intros tf di ni Htf Hdi Hni. simpl in Hni.
      unfold nrows. now rewrite (valid_rows tf (Hv' _ Htf) s di ni Hdi Hni). }
    rewrite <- Hns, <- Hsum.
    apply (valid_rows out Hout s d r); auto.
    apply dict_get_In in Hget. exact Hget.
  - exists tf0, rest. split; [reflexivity|]. split; [exact Hnames|].
    intros s.
    apply frame_ok_inv in Hout. destruct Hout as (_ & _ & Ko & _).
    apply frame_ok_inv in V0. destruct V0 as (_ & _ & K0 & _).
    rewrite Ko, Hnames. symmetry. apply K0.
Qed.

(** ** Members of a dictionary of named ragged tensors *)

Lemma cat_group_of_first tf1 rest along out s g1 :
  um s = false -> ud s = true ->
  sget s (feat_dict tf1) = Some (Group g1) ->
  cat um ud (tf1 :: rest) along = Ok out ->
  exists tl g,
    dd_lookup stype_eq_dec s (feat_list_dict (tf1 :: rest)) = Group g1 :: tl /\
    cat_group (Group g1 :: tl)
              (if String.eqb along "row" then 0 else 1) = Ok g /\
    sget s (feat_dict out) = Some (Group g).
Proof.
  intros Hum Hud Hg1 H.
  destruct (entries_one_head _ _ _ Hg1) as [tl0 Hhead].
  assert (Hl : exists tl,
             dd_lookup stype_eq_dec s (feat_list_dict (tf1 :: rest))
             = Group g1 :: tl).
  { rewrite feat_list_dict_lookup. simpl. rewrite Hhead. simpl. eauto. }
  destruct Hl as [tl Hl]. exists tl.
  assert (Hget : sget s (feat_list_dict (tf1 :: rest)) = Some (Group g1 :: tl)).
  { rewrite <- Hl. apply dd_lookup_nonempty. rewrite Hl. discriminate. }
  assert (Hh : _cat_helper um ud (tf1 :: rest)
                 (if String.eqb along "row" then 0 else 1)
               = Ok (feat_dict out)).
  { destruct (String.eqb_spec along "row") as [->|N1].
    - apply cat_row_ok_inv in H.
      destruct H as (tf0 & rest' & _ & _ & _ & _ & Hh & _). exact Hh.
    - destruct (String.eqb_spec along "col") as [->|N2].
      + apply cat_col_ok_inv in H. destruct H as (_ & _ & Hh & _). exact Hh.
      + unfold cat in H. apply String.eqb_neq in N1, N2.
        rewrite N1, N2 in H. simpl in H. discriminate. }
  destruct (cat_helper_lookup _ _ _ _ _ Hh Hget) as (d & Hd & Hout).
  unfold cat_feat in Hd. rewrite Hum, Hud in Hd.
  bind_inv Hd. injection Hd as <-. exists a. auto.
Qed.

(** C10: in a concatenation along either axis whose first input stores a
    semantic type as a dictionary of named ragged tensors, the result's
    dictionary for that type has exactly the first input's member names, in
    their order, so a name only later inputs have is left out; a name of
    the first input that a later input lacks makes the concatenation
    fail. *)
Theorem cat_group_member_names (tf1 : TensorFrame) (rest : list TensorFrame)
        (along : string) (s : stype) (g1 : list (string * MultiNestedTensor)) :
  um s = false -> ud s = true ->
  sget s (feat_dict tf1) = Some (Group g1) ->
  (forall out, cat um ud (tf1 :: rest) along = Ok out ->
     exists g, sget s (feat_dict out) = Some (Group g) /\ keys g = keys g1) /\
  (forall tf g name,
     In tf rest -> sget s (feat_dict tf) = Some (Group g) ->
     In name (keys g1) -> ~ In name (keys g) ->
     exists e, cat um ud (tf1 :: rest) along = Err e).
Proof.
  intros Hum Hud Hg1. split.
  - intros out H.
    destruct (cat_group_of_first _ _ _ _ _ _ Hum Hud Hg1 H)
      as (tl & g & _ & Hc & Hout).
    exists g. split; auto. eapply cat_group_keys; eauto.
  - intros tf g name Htf Hg Hname Hmiss.
    destruct (cat um ud (tf1 :: rest) along) as [out|e] eqn:E; [|eauto].
    exfalso. apply Hmiss.
    destruct (cat_group_of_first _ _ _ _ _ _ Hum Hud Hg1 E)
      as (tl & g' & Hl & Hc & _).
    assert (Hin : In (Group g) (Group g1 :: tl)).
    { rewrite <- Hl. apply In_feat_list. exists tf. split; [simpl; auto|].
      now apply dict_get_In in Hg. }
    unfold cat_group in Hc. cbn [as_group bind] in Hc.
    destruct (mapM_ok_In _ _ _ Hc name Hname) as (b & Hb & _).
    bind_inv Hb.
    destruct (mapM_ok_In _ _ _ Hstep (Group g) Hin) as (m & Hm & _).
    cbn [as_group bind] in Hm. unfold getitem in Hm.
    destruct (dict_get string_dec name g) eqn:G; [|discriminate].
    eapply dict_get_Some_key; eauto.
Qed.

End ConcatFacts.

(* ------------------------------------------------------------------ *)
(** ** Frequency tables *)

Lemma filter_filter {A} (P Q : A -> bool) l :
  filter P (filter Q l) = filter (fun a => Q a && P a) l.
Proof.
  induction l as [|a l IH]; simpl; auto.
  destruct (Q a); simpl; [destruct (P a); now rewrite IH | auto].
Qed.

Lemma forallb_hashable_dropna ser :
  forallb hashable ser = true -> forallb hashable (dropna ser) = true.
Proof.
  rewrite !forallb_forall. intros H c Hin. apply H.
  unfold dropna in Hin. apply filter_In in Hin. tauto.
Qed.

Lemma dropna_idem ser : dropna (dropna ser) = dropna ser.
Proof.
  unfold dropna. rewrite filter_filter. apply filter_ext.
  intros c. now rewrite andb_diag.
Qed.

Lemma dropna_nil ser : forallb isnull ser = true -> dropna ser = [].
Proof.
  unfold dropna. induction ser as [|c ser IH]; simpl; auto.
  intros H. apply andb_true_iff in H. destruct H as [-> H]. simpl. auto.
Qed.

(** *** The two sorts of the examples *)

Lemma insert_before_perm p l : Permutation (p :: l) (insert_before p l).
Proof.
  induction l as [|q l IH]; simpl; auto.
  destruct (snd q <=? snd p); auto.
  eapply perm_trans; [apply perm_swap|]. now constructor.
Qed.


Lemma insert_before_sorted p l :
  Sorted (fun a b => snd b <= snd a) l ->
  Sorted (fun a b => snd b <= snd a) (insert_before p l).
Proof.
  induction 1 as [|q l Hs IH Hhd]; simpl.
  - repeat constructor.
  - destruct (snd q <=? snd p) eqn:E.
    + apply Nat.leb_le in E. repeat constructor; auto.
    + apply Nat.leb_gt in E. constructor; auto.
      destruct l as [|q' l]; simpl in *.
      * constructor. lia.
      * inversion Hhd; subst.
        destruct (snd q' <=? snd p); constructor; auto; lia.
Qed.


Lemma descending_trans (a b c : cell * nat) :
  snd b <= snd a -> snd c <= snd b -> snd c <= snd a.
Proof. lia. Qed.

Lemma stable_sort_ok : sorts_descending stable_sort.
Proof.
  intros l. split.
  - induction l as [|p l IH]; simpl; auto.
    eapply perm_trans; [|apply insert_before_perm]. now constructor.
  - apply Sorted_StronglySorted.
    + intros a b c. apply descending_trans.
    + induction l as [|p l IH]; simpl; [constructor|].
      now apply insert_before_sorted.
Qed.


(** A table whose counts are all different has one descending order. *)
Lemma descending_unique (l0 l : list (cell * nat)) :
  StronglySorted (fun p q => snd q < snd p) l0 ->
  Permutation l0 l ->
  StronglySorted (fun p q => snd q <= snd p) l ->
  l = l0.
Proof.
  revert l. induction l0 as [|a r IH]; intros l S0 P S.
  - now apply Permutation_nil in P.
  - destruct l as [|x l].
    { apply Permutation_sym, Permutation_nil in P. discriminate. }
    inversion S0 as [|? ? S0r Ha]; subst.
    inversion S as [|? ? Sr Hx]; subst.
    assert (E : x = a).
    { assert (Hin : In a (x :: l))
        by (eapply Permutation_in; [exact P | left; auto]).
      destruct Hin as [E|Hin]; auto.
      assert (Hxin : In x (a :: r))
        by (eapply Permutation_in;
            [apply Permutation_sym; exact P | left; auto]).
      destruct Hxin as [E|Hxin]; auto.
      rewrite Forall_forall in Ha, Hx.
      specialize (Ha _ Hxin). specialize (Hx _ Hin). lia. }
    subst x. f_equal. apply IH; auto.
    eapply Permutation_cons_inv; eauto.
Qed.

(** *** The hash table *)


Lemma hash_add_keyed x c :
  keyed (hash_add x c) = count_add cell_eq_dec (hash_key x) (keyed c).
Proof.
  unfold keyed. induction c as [|[k n] c IH]; [reflexivity|].
  cbn [hash_add map fst snd count_add]. unfold same_key.
  destruct (cell_eq_dec (hash_key x) (hash_key k)); cbn [map fst snd];
    [reflexivity | now rewrite IH].
Qed.

(** Through the keys, the hash table is the table of occurrence counts of
    the keys. *)
Lemma hash_count_keyed l :
  keyed (hash_count l) = count_items cell_eq_dec (map hash_key l).
Proof.
  unfold hash_count, count_items.
  change (@nil (cell * nat)) with (keyed []) at 2.
  generalize (@nil (cell * nat)) as acc.
  induction l as [|x l IH]; simpl; intros acc; [reflexivity|].
  now rewrite IH, hash_add_keyed.
Qed.

Lemma In_hash_add k n x c :
  In (k, n) (hash_add x c) -> k = x \/ In k (keys c).
Proof.
  induction c as [|[k' n'] c IH]; simpl.
  - intros [E|[]]. injection E as <- _. auto.
  - destruct (same_key x k'); simpl.
    + intros [E|Hin]; [injection E as <- _; auto|].
      right. right. apply in_map_iff. now exists (k, n).
    + intros [E|Hin]; [injection E as <- _; auto|].
      destruct (IH Hin); auto.
Qed.

(** The values the table lists are values of the list. *)
Lemma In_hash_count k n l : In (k, n) (hash_count l) -> In k l.
Proof.
  unfold hash_count.
  assert (H : forall acc,
            In (k, n) (fold_left (fun c x => hash_add x c) l acc) ->
            In k l \/ In k (keys acc)).
  { induction l as [|x l IH]; simpl; intros acc Hin.
    - right. apply in_map_iff. now exists (k, n).
    - destruct (IH _ Hin) as [H|H]; auto.
      apply in_map_iff in H. destruct H as ([k' n'] & E & H). simpl in E.
      subst k'. destruct (In_hash_add _ _ _ _ H); auto. }
  intros Hin. destruct (H [] Hin) as [Hl|[]]. exact Hl.
Qed.


Lemma keyed_keys c : keys (keyed c) = map hash_key (keys c).
Proof. unfold keys, keyed. rewrite !map_map. reflexivity. Qed.

(** The hash table: one entry for each value of the list, the float zeros
    taken as one value, with the number of its occurrences. *)
Lemma hash_count_table l :
  NoDup (map hash_key (keys (hash_count l))) /\
  (forall c n, In (c, n) (hash_count l) ->
               In c l /\ n = key_count l c /\ 1 <= n) /\
  (forall c, In c l ->
             exists c', In c' (keys (hash_count l)) /\
                        hash_key c' = hash_key c).
Proof.
  split; [|split].
  - rewrite <- keyed_keys, hash_count_keyed. apply count_items_NoDup.
  - intros c n Hin. split; [eapply In_hash_count; eauto|].
    assert (Hk : In (hash_key c, n) (keyed (hash_count l))).
    { unfold keyed. apply in_map_iff. now exists (c, n). }
    rewrite hash_count_keyed in Hk. now apply In_count_items in Hk.
  - intros c Hin.
    assert (Hk : In (hash_key c, key_count l c) (keyed (hash_count l))).
    { rewrite hash_count_keyed. apply In_count_items. split; auto.
      unfold key_count. apply (count_occ_In cell_eq_dec).
      now apply in_map. }
    unfold keyed in Hk. apply in_map_iff in Hk.
    destruct Hk as ([c' n'] & E & Hc'). simpl in E. injection E as E _.
    exists c'. split; auto. apply in_map_iff. now exists (c', n').
Qed.

Lemma value_counts_ok sort_values ser :
  forallb hashable ser = true ->
  value_counts sort_values ser = Ok (sort_values (hash_count (dropna ser))).
Proof. unfold value_counts. now intros ->. Qed.



Section StatsFacts.
Variable np_mean : list float -> float.
Variable np_std : list float -> float.
Variable np_quantile : list float -> list float -> list float.
Variable to_datetime_year : option string -> cell -> result Z.
Variable sort_values : list (cell * nat) -> list (cell * nat).

Local Notation "'col_stats'" :=
  (compute_col_stats np_mean np_std np_quantile to_datetime_year sort_values).

Lemma sort_values_nil : sorts_descending sort_values -> sort_values [] = [].
Proof. intros Hs. destruct (Hs []) as [P _]. now apply Permutation_nil in P. Qed.

Lemma categorical_table ser sep time_format :
  sorts_descending sort_values ->
  forallb hashable ser = true ->
  col_stats ser categorical sep time_format
  = Ok [(COUNT, count_table (sort_values (hash_count (dropna ser))))].
Proof.
  intros Hs Hh. unfold compute_col_stats.
  destruct (stype_eq_dec categorical numerical) as [E|_]; [discriminate|].
  destruct (forallb isnull ser) eqn:En.
  - rewrite (dropna_nil ser En). cbn [hash_count fold_left].
    rewrite (sort_values_nil Hs). reflexivity.
  - cbn [stats_for_stype mapM compute bind].
    rewrite value_counts_ok by now apply forallb_hashable_dropna.
    cbn [bind]. now rewrite dropna_idem.
Qed.


(** ** Tokens of a multicategorical column *)

Lemma dropna_strs l : Forall is_str l -> dropna l = l.
Proof.
  unfold dropna. induction 1 as [|c l [s ->] _ IH]; simpl; congruence.
Qed.

Lemma split_by_sep_strs s sep :
  exists toks, split_by_sep (CStr s) sep = Ok toks /\ Forall is_str toks.
Proof.
  destruct s as [|a s]; simpl.
  - exists []. split; auto.
  - eexists. split; [reflexivity|].
    apply Forall_forall. intros c Hc. apply in_map_iff in Hc.
    destruct Hc as (t & <- & _). now exists t.
Qed.

Lemma split_cells sep l :
  Forall is_str l ->
  exists rows,
    mapM (fun row => split_by_sep row sep) l = Ok rows /\
    dropna (explode rows) =
      flat_map (fun c => match split_by_sep c sep with
                         | Ok toks => toks
                         | Err _ => []
                         end) l /\
    Forall is_str (dropna (explode rows)).
Proof.
  induction 1 as [|c l [s ->] _ (rows & Hm & Hd & Hs)].
  - exists []. repeat split; auto.
  - destruct (split_by_sep_strs s sep) as (toks & Ht & Hstr).
    exists (toks :: rows). cbn [mapM flat_map]. rewrite Ht, Hm. cbn [bind].
    split; [reflexivity|].
    assert (E : dropna (explode (toks :: rows)) = toks ++ dropna (explode rows)).
    { unfold explode at 1. cbn [flat_map]. fold (explode rows).
      unfold dropna at 1. rewrite filter_app. fold (dropna (explode rows)).
      f_equal. destruct toks as [|t toks]; [reflexivity|].
      now apply dropna_strs. }
    rewrite E. rewrite Hd in *. split; [reflexivity|].
    apply Forall_app. split; assumption.
Qed.

Lemma dropna_str_or_null ser :
  forallb str_or_null ser = true -> Forall is_str (dropna ser).
Proof.
  intros H. rewrite forallb_forall in H. apply Forall_forall.
  intros c Hc. unfold dropna in Hc. apply filter_In in Hc.
  destruct Hc as [Hc Hn]. specialize (H _ Hc). apply negb_true_iff in Hn.
  destruct c; simpl in *; try congruence. now eexists.
Qed.

Lemma strs_hashable l : Forall is_str l -> forallb hashable l = true.
Proof.
  intros H. apply forallb_forall. rewrite Forall_forall in H.
  intros c Hc. destruct (H _ Hc) as [s ->]. reflexivity.
Qed.

Lemma strs_all_null l :
  Forall is_str l -> forallb isnull l = true -> l = [].
Proof.
  destruct 1 as [|c l [s ->] _]; simpl; [auto | discriminate].
Qed.

(** C8: the statistics of a multicategorical column that holds a value
    fail with the missing-separator error when no separator is given; with
    a separator, the tokens of its non-missing cells are counted as a
    categorical column of those tokens would be; the column
    ["x/y", "y", None] with separator "/" gives (["y", "x"], [2, 1]) for a
    sort by descending count. *)
Theorem multicategorical_count :
  (forall (ser : Series) (time_format : option string),
     existsb (fun c => negb (isnull c)) ser = true ->
     col_stats ser multicategorical None time_format
     = Err MissingSeparatorError) /\
  (sorts_descending sort_values ->
   forall (ser : Series) (sep : string) (time_format : option string),
     forallb str_or_null ser = true ->
     exists v,
       col_stats (tokens_of sep ser) categorical None time_format
       = Ok [(COUNT, v)] /\
       col_stats ser multicategorical (Some sep) time_format
       = Ok [(MULTI_COUNT, v)]) /\
  (sorts_descending sort_values ->
   forall time_format,
     col_stats [CStr "x/y"; CStr "y"; CNone] multicategorical (Some "/")
               time_format
     = Ok [(MULTI_COUNT, VCount [CStr "y"; CStr "x"] [2; 1])]).
Proof.
  split; [|split].
  - intros ser time_format H. unfold compute_col_stats.
    destruct (stype_eq_dec multicategorical numerical) as [E|_];
      [discriminate|].
    rewrite (forallb_negb_existsb isnull (fun c => negb (isnull c)))
      by reflexivity.
    rewrite H. reflexivity.
  - intros Hsort ser sep time_format Hs.
    pose proof (dropna_str_or_null ser Hs) as Hstr.
    destruct (split_cells sep (dropna ser) Hstr) as (rows & Hm & Hd & Ht).
    fold (tokens_of sep ser) in Hd.
    exists (count_table (sort_values (hash_count (tokens_of sep ser)))).
    rewrite Hd in Ht. split.
    + rewrite categorical_table by (auto; now apply strs_hashable).
      now rewrite dropna_strs.
    + unfold compute_col_stats.
      destruct (stype_eq_dec multicategorical numerical) as [E|_];
        [discriminate|].
      destruct (forallb isnull ser) eqn:En.
      * unfold tokens_of. rewrite (dropna_nil ser En).
        cbn [flat_map hash_count fold_left].
        rewrite (sort_values_nil Hsort). reflexivity.
      * cbn [stats_for_stype mapM compute bind].
        rewrite Hm. cbn [bind]. rewrite Hd.
        rewrite value_counts_ok by now apply strs_hashable.
        cbn [bind]. now rewrite dropna_strs.
  - intros Hs time_format.
    assert (E : sort_values [(CStr "x", 1); (CStr "y", 2)]
                = [(CStr "y", 2); (CStr "x", 1)]).
    { apply descending_unique; try apply Hs.
      - repeat constructor; simpl; lia.
      - eapply perm_trans; [apply perm_swap | apply Hs]. }
    unfold compute_col_stats.
    destruct (stype_eq_dec multicategorical numerical) as [E0|_];
      [discriminate|].
    cbn. rewrite E. reflexivity.
Qed.

(** ** Numerical-like columns *)

Lemma concat_singletons {A} (l : list A) : concat (map (fun x => [x]) l) = l.
Proof. induction l as [|a l IH]; simpl; congruence. Qed.

Lemma flatten_ok l :
  forallb num_or_null l = true ->
  forallb (fun c => negb (isnull c)) l = true ->
  flat_values l <> [] ->
  flatten l = Ok (flat_values l).
Proof.
  intros Hn Hnn Hne. unfold flatten.
  assert (Hm : mapM atleast_1d l =
               Ok (map (fun c => match c with
                                 | CFloat f => [f]
                                 | CList v => v
                                 | _ => []
                                 end) l)).
  { clear Hne. induction l as [|c l IH]; simpl in *; auto.
    apply andb_true_iff in Hn, Hnn. destruct Hn as [Hc Hn], Hnn as [Hc' Hnn].
    rewrite (IH Hn Hnn). destruct c; simpl in *; try discriminate; reflexivity. }
  rewrite Hm. cbn [bind].
  assert (Hc : concat (map (fun c => match c with
                                     | CFloat f => [f]
                                     | CList v => v
                                     | _ => []
                                     end) l) = flat_values l).
  { unfold flat_values. now rewrite flat_map_concat_map. }
  unfold np_hstack at 1.
  destruct l as [|c l]; [exfalso; now apply Hne|].
  cbn [map]. cbn [map] in Hc. rewrite Hc. cbn [bind].
  unfold np_hstack. rewrite concat_singletons.
  destruct (flat_values (c :: l)); [congruence | reflexivity].
Qed.

Lemma existsb_filter_nil {A} (p : A -> bool) l :
  existsb p l = false <-> filter p l = [].
Proof.
  induction l as [|a l IH]; simpl; [tauto|].
  destruct (p a); simpl; [split; discriminate | exact IH].
Qed.

Lemma finite_values_dropna ser : finite_values (dropna ser) = finite_values ser.
Proof.
  unfold finite_values, flat_values, dropna.
  induction ser as [|c ser IH]; simpl; auto.
  destruct (isnull c) eqn:E; simpl; rewrite !filter_app, IH.
  - destruct c as [[]| | |]; simpl in *; try discriminate; auto.
  - reflexivity.
Qed.

Lemma finite_values_mask_inf ser :
  finite_values (mask_inf ser) = finite_values ser.
Proof.
  unfold finite_values, flat_values, mask_inf.
  induction ser as [|c ser IH]; simpl; auto.
  rewrite !filter_app, IH. f_equal.
  destruct c as [[]| | |]; reflexivity.
Qed.

Lemma finite_values_all_null ser :
  forallb isnull ser = true -> finite_values ser = [].
Proof.
  intros H. rewrite <- finite_values_dropna, (dropna_nil ser H). reflexivity.
Qed.

Lemma forallb_notnull_dropna ser :
  forallb (fun c => negb (isnull c)) (dropna ser) = true.
Proof.
  apply forallb_forall. intros c Hc. unfold dropna in Hc.
  apply filter_In in Hc. tauto.
Qed.

Lemma num_or_null_dropna ser :
  forallb num_or_null ser = true -> forallb num_or_null (dropna ser) = true.
Proof.
  rewrite !forallb_forall. intros H c Hc. apply H.
  unfold dropna in Hc. apply filter_In in Hc. tauto.
Qed.

Lemma num_or_null_mask_inf ser :
  forallb num_or_null ser = true -> forallb num_or_null (mask_inf ser) = true.
Proof.
  unfold mask_inf. induction ser as [|c ser IH]; simpl; auto.
  intros H. apply andb_true_iff in H. destruct H as [Hc H].
  rewrite (IH H), andb_true_r.
  destruct c as [f| | |]; auto. destruct (isinf f); reflexivity.
Qed.

(** The statistics of a numerical-like column whose flattening holds at
    least one value (or whose cells are all missing): the sentinel record
    when no finite value remains, and otherwise the NumPy mean, standard
    deviation and quantiles of the finite values. *)
Lemma numeric_stats_spec ser s sep time_format :
  s = numerical \/ s = sequence_numerical ->
  forallb num_or_null ser = true ->
  (let ser' := if stype_eq_dec s numerical then mask_inf ser else ser in
   forallb isnull ser' = true \/ flat_values (dropna ser') <> []) ->
  col_stats ser s sep time_format =
  Ok (match finite_values ser with
      | [] => sentinel
      | fin =>
          [(MEAN, VFloat (np_mean fin)); (STD, VFloat (np_std fin));
           (QUANTILES,
            VFloats (np_quantile fin [q_000; q_025; q_050; q_075; q_100]))]
      end).
Proof.
  intros Hs Hn Hok. unfold compute_col_stats.
  set (ser' := if stype_eq_dec s numerical then mask_inf ser else ser) in *.
  assert (Hfin : finite_values ser' = finite_values ser).
  { subst ser'. destruct (stype_eq_dec s numerical); auto.
    apply finite_values_mask_inf. }
  assert (Hn' : forallb num_or_null ser' = true).
  { subst ser'. destruct (stype_eq_dec s numerical); auto.
    now apply num_or_null_mask_inf. }
  assert (Hstats : stats_for_stype s = [MEAN; STD; QUANTILES])
    by (destruct Hs; subst s; reflexivity).
  rewrite Hstats. simpl in Hok.
  destruct (forallb isnull ser') eqn:En.
  - rewrite <- Hfin, (finite_values_all_null ser' En). reflexivity.
  - destruct Hok as [Hok|Hok]; [discriminate|].
    cbn [mapM compute bind].
    rewrite (flatten_ok (dropna ser') (num_or_null_dropna _ Hn')
                        (forallb_notnull_dropna ser') Hok).
    cbn [bind].
    rewrite <- Hfin, <- (finite_values_dropna ser').
    unfold finite_values.
    destruct (existsb isfinite (flat_values (dropna ser'))) eqn:Ee; cbn [negb bind].
    + destruct (filter isfinite (flat_values (dropna ser'))) eqn:Ef;
        [|reflexivity].
      apply existsb_filter_nil in Ef. congruence.
    + apply existsb_filter_nil in Ee. rewrite Ee. reflexivity.
Qed.

(** C3, where the code departs from it: a sequence-numerical column whose
    only cell is an empty sequence has no finite entry, yet its statistics
    raise (the outer [np.hstack] is handed an empty array) instead of
    giving the sentinel record. *)
Theorem numeric_stats_empty_sequence (sep time_format : option string) :
  finite_values [CList []] = [] /\
  col_stats [CList []] sequence_numerical sep time_format = Err ValueError.
Proof. split; reflexivity. Qed.

End StatsFacts.

(* ------------------------------------------------------------------ *)
(** ** The statements at concrete inputs *)

Ltac nodup_keys := apply (proj1 (nodupb_NoDup stype_eq_dec _)); reflexivity.

Ltac each_frame tac := repeat (apply Forall_cons; [tac|]); apply Forall_nil.

Lemma cat_col_target_handling_witness :
  cat_ex [two_rows_y; three_rows_y] "col" = Err AmbiguousTargetError /\
  (exists out, cat_ex [two_rows_y; two_rows_cat] "col" = Ok out /\
               y out = Some [10; 20]%Z) /\
  (exists out, cat_ex [two_rows; two_rows_cat] "col" = Ok out /\
               y out = None).
Proof.
  split; [|split].
  - apply (proj1 (cat_col_target_handling ragged_stype group_stype
                    [two_rows_y; three_rows_y])).
    simpl. lia.
  - eexists. split; [reflexivity|].
    apply (proj2 (proj2 (proj1 (proj2 (cat_col_target_handling
                                         ragged_stype group_stype
                                         [two_rows_y; two_rows_cat]))
                               [10; 20]%Z eq_refl))).
    reflexivity.
  - eexists. split; [reflexivity|].
    apply (proj2 (proj2 (proj2 (proj2 (cat_col_target_handling
                                         ragged_stype group_stype
                                         [two_rows; two_rows_cat]))
                               eq_refl))).
    reflexivity.
Defined.

(** C4 as stated does not hold: when the second frame has a categorical
    column the first lacks, categorical is the one semantic type at which
    the mappings differ, and the error does not mention it. *)
Lemma cat_row_schema_mismatch_counterexample :
  cat_ex [two_rows; two_rows_num_cat] "row"
  = Err (SchemaMismatch [(numerical, ["a"])]) /\
  (forall s, sget s (col_names_dict two_rows_num_cat)
             <> sget s (col_names_dict two_rows) -> s = categorical) /\
  sget categorical (col_names_dict two_rows_num_cat)
  <> sget categorical (col_names_dict two_rows) /\
  names_stype (SchemaMismatch [(numerical, ["a"])]) categorical = false.
Proof.
  split; [reflexivity|]. split; [|split; [discriminate | reflexivity]].
  intros s H. destruct s; try reflexivity; exfalso; apply H; reflexivity.
Qed.

Lemma cat_row_schema_mismatch_witness :
  cat_ex [one_row_ab; one_row_ba] "row"
  = Err (SchemaMismatch [(numerical, ["a"; "b"])]).
Proof.
  apply (cat_row_schema_mismatch ragged_stype group_stype
           one_row_ab [one_row_ba]).
  - nodup_keys.
  - each_frame nodup_keys.
  - exists one_row_ba, numerical. split; [simpl; auto | discriminate].
Defined.

Lemma cat_row_result_witness :
  num_rows two_rows_y = Some 2 /\ num_rows three_rows_a_y = Some 3 /\
  exists out,
    cat_ex [two_rows_y; three_rows_a_y] "row" = Ok out /\
    num_rows out = Some 5 /\
    y out = Some [10; 20; 30; 40; 50]%Z /\
    col_names_dict out = [(numerical, ["a"])].
Proof.
  split; [reflexivity|]. split; [reflexivity|].
  eexists. split; [reflexivity|].
  destruct (cat_row_result ragged_stype group_stype
              [two_rows_y; three_rows_a_y] _
              ltac:(each_frame reflexivity) eq_refl)
    as (Hrows & Hy & tf0 & rest & Hl & Hnames & _).
  split; [exact Hrows|]. split; [exact Hy|].
  injection Hl as <- <-. exact Hnames.
Defined.

(** C9 as stated does not hold: frames of which one has a target and one
    has none, and whose column names differ too, fail with the schema
    error, not with the target error. *)
Lemma cat_row_target_check_counterexample :
  mixed_targets [two_rows_y; three_rows] = true /\
  cat_ex [two_rows_y; three_rows] "row"
  = Err (SchemaMismatch [(numerical, ["a"])]).
Proof. split; reflexivity. Qed.

Lemma cat_row_target_check_witness :
  (exists b, cat_ex [two_rows_y; three_rows_a] "row" = Err (TargetMismatch b)) /\
  cat_ex [two_rows_y; three_rows] "row"
  = Err (SchemaMismatch [(numerical, ["a"])]) /\
  check_y two_rows_y [two_rows_y; three_rows_a_y] = Ok tt.
Proof.
  split; [|split].
  - apply (proj1 (proj2 (cat_row_target_check ragged_stype group_stype
                           two_rows_y [three_rows_a]))); reflexivity.
  - apply (proj2 (proj2 (cat_row_target_check ragged_stype group_stype
                           two_rows_y [three_rows]))); [reflexivity|].
    discriminate.
  - apply (proj1 (cat_row_target_check ragged_stype group_stype
                    two_rows_y [three_rows_a_y])). reflexivity.
Defined.

Lemma cat_group_member_names_witness :
  (forall out,
     cat_ex [group_frame ["m1"]; group_frame ["m1"; "m2"]] "row" = Ok out ->
     exists g, sget embedding (feat_dict out) = Some (Group g) /\
               keys g = ["m1"]) /\
  is_ok (cat_ex [group_frame ["m1"]; group_frame ["m1"; "m2"]] "row") = true /\
  (exists e,
     cat_ex [group_frame ["m1"; "m2"]; group_frame ["m1"]] "col" = Err e).
Proof.
  split; [|split].
  - apply (proj1 (cat_group_member_names ragged_stype group_stype
                    (group_frame ["m1"]) [group_frame ["m1"; "m2"]] "row"
                    embedding [("m1", [[[1%Z]]])] eq_refl eq_refl eq_refl)).
  - reflexivity.
  - apply (proj2 (cat_group_member_names ragged_stype group_stype
                    (group_frame ["m1"; "m2"]) [group_frame ["m1"]] "col"
                    embedding [("m1", [[[1%Z]]]); ("m2", [[[1%Z]]])]
                    eq_refl eq_refl eq_refl)
                 (group_frame ["m1"]) [("m1", [[[1%Z]]])] "m2").
    + simpl; auto.
    + reflexivity.
    + simpl; auto.
    + simpl. intros [E|[]]. discriminate.
Defined.



Lemma multicategorical_count_witness :
  col_stats_ex xy_y_none multicategorical None None
  = Err MissingSeparatorError /\
  (exists v,
     col_stats_ex (tokens_of "/" xy_y_none) categorical None None
     = Ok [(COUNT, v)] /\
     col_stats_ex xy_y_none multicategorical (Some "/") None
     = Ok [(MULTI_COUNT, v)]) /\
  col_stats_ex xy_y_none multicategorical (Some "/") None
  = Ok [(MULTI_COUNT, VCount [CStr "y"; CStr "x"] [2; 1])].
Proof.
  split; [|split].
  - apply (proj1 (multicategorical_count any_reduction any_reduction
                    any_quantile any_year stable_sort) xy_y_none None).
    reflexivity.
  - apply (proj1 (proj2 (multicategorical_count any_reduction any_reduction
                           any_quantile any_year stable_sort))
                 stable_sort_ok xy_y_none "/" None).
    reflexivity.
  - apply (proj2 (proj2 (multicategorical_count any_reduction any_reduction
                           any_quantile any_year stable_sort))
                 stable_sort_ok None).
Defined.

(* ------------------------------------------------------------------ *)
(** ** Where the errors of a concatenation come from *)

Lemma bind_err_inv {A B} (r : result A) (k : A -> result B) e :
  bind r k = Err e -> r = Err e \/ exists a, r = Ok a /\ k a = Err e.
Proof. destruct r as [a|e']; simpl; intros H; [eauto | left; congruence]. Qed.

Lemma mapM_err_In {A B} (f : A -> result B) l e :
  mapM f l = Err e -> exists a, In a l /\ f a = Err e.
Proof.
  induction l as [|x l IH]; simpl; [discriminate|].
  intros H. apply bind_err_inv in H. destruct H as [H|(b & Hb & H)].
  - exists x. auto.
  - apply bind_err_inv in H. destruct H as [H|(bs & Hbs & H)]; [|discriminate].
    destruct (IH H) as (a & Ha & Hf). exists a. auto.
Qed.

Lemma mnt_cat_err ts dim e : mnt_cat ts dim = Err e -> storage_error e = true.
Proof.
  unfold mnt_cat. destruct ts as [|t0 rest]; [intros H; now injection H as <-|].
  destruct dim as [|[|dim]]; try discriminate.
  - match goal with
    | |- context [forallb ?f rest] => destruct (forallb f rest)
    end; [discriminate|]. intros H; now injection H as <-.
  - intros H; now injection H as <-.
Qed.

Lemma torch_cat_err ts dim e :
  torch_cat ts dim = Err e -> storage_error e = true.
Proof.
  unfold torch_cat. destruct ts as [|t0 rest]; [intros H; now injection H as <-|].
  destruct dim as [|[|dim]].
  - match goal with
    | |- context [forallb ?f rest] => destruct (forallb f rest)
    end; [discriminate|]. intros H; now injection H as <-.
  - match goal with
    | |- context [forallb ?f rest] => destruct (forallb f rest)
    end; [discriminate|]. intros H; now injection H as <-.
  - intros H; now injection H as <-.
Qed.

Lemma as_kind_err d e :
  (as_dense d = Err e \/ as_ragged d = Err e \/ as_group d = Err e) ->
  storage_error e = true.
Proof.
  intros [H|[H|H]]; destruct d; simpl in H; try discriminate;
    now injection H as <-.
Qed.

Section ConcatErrors.
Variable um : stype -> bool.
Variable ud : stype -> bool.

Lemma cat_group_err feat_list dim e :
  cat_group feat_list dim = Err e -> storage_error e = true.
Proof.
  unfold cat_group. destruct feat_list as [|first rest];
    [intros H; now injection H as <-|].
  intros H. apply bind_err_inv in H. destruct H as [H|(g0 & _ & H)].
  - eapply as_kind_err; eauto.
  - apply mapM_err_In in H. destruct H as (name & _ & H).
    apply bind_err_inv in H. destruct H as [H|(ts & _ & H)].
    + apply mapM_err_In in H. destruct H as (feat & _ & H).
      apply bind_err_inv in H. destruct H as [H|(g & _ & H)].
      * eapply as_kind_err; eauto.
      * unfold getitem in H. destruct (dict_get string_dec name g);
          [discriminate|]. now injection H as <-.
    + apply bind_err_inv in H. destruct H as [H|(m & _ & H)]; [|discriminate].
      eapply mnt_cat_err; eauto.
Qed.

Lemma cat_feat_err s feat_list dim e :
  cat_feat um ud s feat_list dim = Err e -> storage_error e = true.
Proof.
  unfold cat_feat. destruct (um s); [|destruct (ud s)]; intros H;
    apply bind_err_inv in H; destruct H as [H|(a & _ & H)].
  - apply mapM_err_In in H. destruct H as (d & _ & H).
    eapply as_kind_err; eauto.
  - apply bind_err_inv in H. destruct H as [H|(m & _ & H)]; [|discriminate].
    eapply mnt_cat_err; eauto.
  - eapply cat_group_err; eauto.
  - discriminate.
  - apply mapM_err_In in H. destruct H as (d & _ & H).
    eapply as_kind_err; eauto.
  - apply bind_err_inv in H. destruct H as [H|(m & _ & H)]; [|discriminate].
    eapply torch_cat_err; eauto.
Qed.

Lemma cat_helper_err tf_list dim e :
  _cat_helper um ud tf_list dim = Err e -> storage_error e = true.
Proof.
  unfold _cat_helper. intros H. apply mapM_err_In in H.
  destruct H as (kv & _ & H).
  apply bind_err_inv in H. destruct H as [H|(d & _ & H)]; [|discriminate].
  eapply cat_feat_err; eauto.
Qed.

Lemma new_TensorFrame_err feat names tgt e :
  new_TensorFrame feat names tgt = Err e -> e = FrameInvariantError.
Proof.
  unfold new_TensorFrame. destruct (frame_ok feat names tgt); [discriminate|].
  intros H. now injection H as <-.
Qed.

Lemma cat_y_err tf_list e : cat_y tf_list = Err e -> storage_error e = true.
Proof.
  unfold cat_y. intros H. apply bind_err_inv in H.
  destruct H as [H|(ys & _ & H)]; [|discriminate].
  apply mapM_err_In in H. destruct H as (tf & _ & H).
  destruct (y tf); [discriminate|]. now injection H as <-.
Qed.

(** The steps of [_cat_row] in order: the first that fails gives the
    error. *)
Lemma cat_row_err_cases tf0 rest e :
  _cat_row um ud (tf0 :: rest) = Err e ->
  check_col_names tf0 rest = Err e \/
  (check_col_names tf0 rest = Ok tt /\ check_y tf0 (tf0 :: rest) = Err e) \/
  (check_col_names tf0 rest = Ok tt /\ check_y tf0 (tf0 :: rest) = Ok tt /\
   (storage_error e = true \/ e = FrameInvariantError)).
Proof.
  unfold _cat_row. intros H.
  apply bind_err_inv in H. destruct H as [H|([] & Hc & H)]; [auto|].
  apply bind_err_inv in H. destruct H as [H|([] & Hy & H)]; [auto|].
  right; right. split; [assumption|]. split; [assumption|].
  apply bind_err_inv in H. destruct H as [H|(tgt & _ & H)].
  - left. destruct (y tf0); [|discriminate].
    apply bind_err_inv in H. destruct H as [H|(v & _ & H)]; [|discriminate].
    eapply cat_y_err; eauto.
  - apply bind_err_inv in H. destruct H as [H|(feat & _ & H)].
    + left. eapply cat_helper_err; eauto.
    + right. eapply new_TensorFrame_err; eauto.
Qed.

Lemma col_target_err tf_list e :
  col_target tf_list = Err e ->
  e = AmbiguousTargetError /\ 2 <= length (targets tf_list).
Proof.
  pose proof (idx_targets tf_list) as E. unfold col_target.
  destruct (idx_with_non_nan_y tf_list) as [|i [|j r]]; simpl in *.
  - discriminate.
  - destruct (nth_error tf_list i) as [tf|]; [discriminate|].
    destruct (targets tf_list); discriminate.
  - intros H. injection H as <-. split; [reflexivity|].
    apply (f_equal (@length _)) in E. simpl in E.
    rewrite !length_map in E. lia.
Qed.

Lemma check_duplicates_first d :
  check_duplicates d =
  match first_duplicated d with
  | Some (s, names) => Err (DuplicateColumnError s (_get_duplicates names))
  | None => Ok tt
  end.
Proof.
  unfold first_duplicated. induction d as [|[s names] d IH]; simpl; auto.
  destruct (0 <? length (_get_duplicates names)); auto.
Qed.

(** The steps of [_cat_col] in order. *)
Lemma cat_col_err_cases tf_list e :
  _cat_col um ud tf_list = Err e ->
  col_target tf_list = Err e \/
  (length (targets tf_list) <= 1 /\
   check_duplicates (merged_col_names tf_list) = Err e) \/
  (length (targets tf_list) <= 1 /\
   check_duplicates (merged_col_names tf_list) = Ok tt /\
   (storage_error e = true \/ e = FrameInvariantError)).
Proof.
  unfold _cat_col. intros H.
  apply bind_err_inv in H. destruct H as [H|(tgt & Ht & H)]; [auto|].
  assert (Hle : length (targets tf_list) <= 1).
  { apply col_target_ok in Ht.
    destruct Ht as [[-> _]|(v & -> & _)]; simpl; lia. }
  apply bind_err_inv in H. destruct H as [H|([] & Hc & H)]; [auto|].
  right; right. split; [assumption|]. split; [assumption|].
  apply bind_err_inv in H. destruct H as [H|(feat & _ & H)].
  - left. eapply cat_helper_err; eauto.
  - right. eapply new_TensorFrame_err; eauto.
Qed.

(** The dispatch of [cat]. *)
Lemma cat_cases tf_list along :
  (tf_list = [] /\ cat um ud tf_list along = Err EmptyInputError) \/
  (tf_list <> [] /\ along = "row" /\
   cat um ud tf_list along = _cat_row um ud tf_list) \/
  (tf_list <> [] /\ along = "col" /\
   cat um ud tf_list along = _cat_col um ud tf_list) \/
  (tf_list <> [] /\ along <> "row" /\ along <> "col" /\
   cat um ud tf_list along = Err (InvalidAlong along)).
Proof.
  destruct tf_list as [|tf0 rest]; [left; auto|]. right.
  unfold cat. cbn [length Nat.eqb].
  destruct (String.eqb_spec along "row") as [->|N1].
  - left. repeat split; auto. discriminate.
  - right. destruct (String.eqb_spec along "col") as [->|N2].
    + left. repeat split; auto. discriminate.
    + right. repeat split; auto. discriminate.
Qed.

End ConcatErrors.

(** ** Keys of the aggregated dictionaries *)

Lemma NoDup_keys_dd_extend {A} k (xs : list A) d :
  NoDup (keys d) -> NoDup (keys (dd_extend stype_eq_dec k xs d)).
Proof.
  assert (Hin : forall k', In k' (keys (dd_extend stype_eq_dec k xs d)) ->
                           k' = k \/ In k' (keys d)).
  { induction d as [|[k2 l2] d IH]; simpl.
    - intros k' [E|[]]; auto.
    - destruct (stype_eq_dec k k2) as [->|Hk2]; simpl; [tauto|].
      intros k' [E|Hin]; auto. destruct (IH _ Hin); auto. }
  clear Hin. induction d as [|[k' l] d IH]; simpl; intros N.
  - constructor; [simpl; tauto | constructor].
  - inversion N; subst.
    destruct (stype_eq_dec k k') as [->|Hkk]; simpl.
    + constructor; auto.
    + constructor; auto. intros Hin. apply H1.
      clear - Hin Hkk. induction d as [|[k2 l2] d IH]; simpl in *.
      * destruct Hin as [E|[]]. congruence.
      * destruct (stype_eq_dec k k2) as [->|Hk2]; simpl in *; auto.
        destruct Hin as [E|Hin]; auto.
Qed.

Lemma NoDup_keys_fold {A B T} (g : stype * B -> list A)
      (h : T -> list (stype * B)) l : forall acc,
  NoDup (keys acc) ->
  NoDup (keys (fold_left
                 (fun acc t =>
                    fold_left (fun acc kv =>
                                 dd_extend stype_eq_dec (fst kv) (g kv) acc)
                              (h t) acc) l acc)).
Proof.
  assert (Hinner : forall d acc, NoDup (keys acc) ->
            NoDup (keys (fold_left
                           (fun acc kv =>
                              dd_extend stype_eq_dec (fst kv) (g kv) acc)
                           d acc))).
  { induction d as [|kv d IH]; simpl; auto.
    intros acc N. apply IH. now apply NoDup_keys_dd_extend. }
  induction l as [|t l IH]; simpl; auto.
Qed.

Lemma merged_col_names_NoDup tf_list : NoDup (keys (merged_col_names tf_list)).
Proof.
  unfold merged_col_names.
  apply (NoDup_keys_fold snd col_names_dict). constructor.
Qed.

Lemma feat_list_dict_NoDup tf_list : NoDup (keys (feat_list_dict tf_list)).
Proof.
  unfold feat_list_dict.
  apply (NoDup_keys_fold one_storage feat_dict). constructor.
Qed.

Lemma merged_entry tf_list s names :
  Forall (fun tf => NoDup (keys (col_names_dict tf))) tf_list ->
  In (s, names) (merged_col_names tf_list) ->
  names = combined_names s tf_list.
Proof.
  intros Hwf Hin. rewrite <- (merged_col_names_lookup tf_list s Hwf).
  unfold dd_lookup.
  now rewrite (In_dict_get stype_eq_dec s names _
                 (merged_col_names_NoDup tf_list) Hin).
Qed.

Lemma get_duplicates_nil lst : _get_duplicates lst = [] <-> NoDup lst.
Proof.
  rewrite (NoDup_count_occ string_dec). split.
  - intros E n. destruct (le_lt_dec (count_occ string_dec lst n) 1); auto.
    exfalso. assert (Hin : In n (_get_duplicates lst))
      by (apply In_get_duplicates; lia).
    rewrite E in Hin. destruct Hin.
  - intros H. destruct (_get_duplicates lst) as [|n r] eqn:E; auto.
    exfalso. assert (Hin : In n (_get_duplicates lst))
      by (rewrite E; simpl; auto).
    apply In_get_duplicates in Hin. specialize (H n). lia.
Qed.

Lemma In_keys_dd_extend {A} k' k (xs : list A) d :
  In k' (keys (dd_extend stype_eq_dec k xs d)) <-> k' = k \/ In k' (keys d).
Proof.
  induction d as [|[k2 l2] d IH]; simpl.
  - intuition.
  - destruct (stype_eq_dec k k2) as [->|Hk2]; simpl.
    + intuition.
    + rewrite IH. intuition.
Qed.

Lemma In_keys_fold {A B T} (g : stype * B -> list A)
      (h : T -> list (stype * B)) k l : forall acc,
  In k (keys (fold_left
                (fun acc t =>
                   fold_left (fun acc kv =>
                                dd_extend stype_eq_dec (fst kv) (g kv) acc)
                             (h t) acc) l acc)) <->
  In k (keys acc) \/ exists t, In t l /\ In k (keys (h t)).
Proof.
  assert (Hinner : forall d acc,
            In k (keys (fold_left
                          (fun acc kv =>
                             dd_extend stype_eq_dec (fst kv) (g kv) acc)
                          d acc)) <->
            In k (keys acc) \/ In k (keys d)).
  { induction d as [|kv d IH]; simpl; intros acc; [tauto|].
    rewrite IH, In_keys_dd_extend. intuition. }
  induction l as [|t l IH]; simpl; intros acc.
  - split; [auto | intros [H|(t & [] & _)]; auto].
  - rewrite IH, Hinner. split.
    + intros [[H|H]|(t' & Ht & H)]; eauto.
    + intros [H|(t' & [<-|Ht] & H)]; eauto.
Qed.

Lemma check_duplicates_ok d :
  check_duplicates d = Ok tt ->
  forall s names, In (s, names) d -> NoDup names.
Proof.
  induction d as [|[k v] d IH]; simpl; [tauto|].
  destruct (_get_duplicates v) eqn:E; simpl; [|discriminate].
  intros H s names [Heq|Hin]; eauto.
  injection Heq as <- <-. now apply get_duplicates_nil.
Qed.

Section ConcatExtras.
Variable um : stype -> bool.
Variable ud : stype -> bool.

Lemma check_col_names_err tf0 rest e :
  check_col_names tf0 rest = Err e ->
  e = SchemaMismatch (col_names_dict tf0) /\
  exists tf, In tf rest /\
             col_names_eqb (col_names_dict tf) (col_names_dict tf0) = false.
Proof.
  unfold check_col_names.
  destruct (forallb _ rest) eqn:E; [discriminate|].
  intros H. injection H as <-. split; [reflexivity|].
  clear - E. induction rest as [|tf rest IH]; simpl in E; [discriminate|].
  apply andb_false_iff in E. destruct E as [E|E].
  - exists tf. simpl; auto.
  - destruct (IH E) as (tf' & Hin & Hf). exists tf'. simpl; auto.
Qed.

Lemma check_y_err tf0 rest e :
  check_y tf0 (tf0 :: rest) = Err e ->
  e = TargetMismatch (has_y tf0) /\ mixed_targets (tf0 :: rest) = true.
Proof.
  intros H.
  assert (Hm : mixed_targets (tf0 :: rest) = true).
  { destruct (mixed_targets (tf0 :: rest)) eqn:E; auto.
    apply check_y_mixed in E. congruence. }
  split; [|assumption]. unfold check_y, has_y in *.
  destruct (y tf0); simpl;
    match type of H with
    | (if ?c then _ else _) = _ => destruct c
    end; try discriminate; now injection H as <-.
Qed.

(** X1: [cat] reports an empty list exactly when the list is empty, and
    an invalid axis exactly when the list is not empty and the axis is
    neither 'row' nor 'col'; the empty list is reported whatever the
    axis. *)
Theorem cat_entry_errors (tf_list : list TensorFrame) (along : string) :
  (cat um ud tf_list along = Err EmptyInputError <-> tf_list = []) /\
  (forall a, cat um ud tf_list along = Err (InvalidAlong a) <->
             tf_list <> [] /\ along <> "row" /\ along <> "col" /\ a = along).
Proof.
  destruct (cat_cases um ud tf_list along)
    as [[-> H]|[(Hne & -> & H)|[(Hne & -> & H)|(Hne & N1 & N2 & H)]]];
    rewrite H.
  - split; [tauto|]. intros a. split; [discriminate | tauto].
  - destruct tf_list as [|tf0 rest]; [congruence|].
    assert (Hno : forall e, _cat_row um ud (tf0 :: rest) = Err e ->
                            e <> EmptyInputError /\
                            forall a, e <> InvalidAlong a).
    { intros e He. apply cat_row_err_cases in He.
      destruct He as [He|[[_ He]|(_ & _ & [He|He])]].
      - apply check_col_names_err in He. destruct He as [-> _].
        split; [|intros a]; discriminate.
      - apply check_y_err in He. destruct He as [-> _].
        split; [|intros a]; discriminate.
      - split; [|intros a]; intros ->; discriminate.
      - subst e. split; [|intros a]; discriminate. }
    split.
    + split; [|discriminate]. intros E. exfalso. now apply (Hno _ E).
    + intros a. split; [|tauto]. intros E. exfalso.
      now apply (proj2 (Hno _ E) a).
  - assert (Hno : forall e, _cat_col um ud tf_list = Err e ->
                            e <> EmptyInputError /\
                            forall a, e <> InvalidAlong a).
    { intros e He. apply cat_col_err_cases in He.
      destruct He as [He|[[_ He]|(_ & _ & [He|He])]].
      - apply col_target_err in He. destruct He as [-> _].
        split; [|intros a]; discriminate.
      - rewrite check_duplicates_first in He.
        destruct (first_duplicated (merged_col_names tf_list)) as [[s n]|];
          [|discriminate].
        injection He as <-. split; [|intros a]; discriminate.
      - split; [|intros a]; intros ->; discriminate.
      - subst e. split; [|intros a]; discriminate. }
    split.
    + split; [|tauto]. intros E. exfalso. now apply (Hno _ E).
    + intros a. split; [|intros (_ & _ & N & _); congruence].
      intros E. exfalso. now apply (proj2 (Hno _ E) a).
  - split.
    + split; [discriminate | tauto].
    + intros a. split.
      * intros E. injection E as <-. auto.
      * intros (_ & _ & _ & ->). reflexivity.
Qed.

(** X2: a concatenation fails with the schema error exactly when it is
    along the rows and the column-name mapping of some later frame is not
    equal to that of the first frame; the error then carries the first
    frame's mapping. *)
Theorem schema_error_iff (tf_list : list TensorFrame) (along : string)
        (d : list (stype * list string)) :
  cat um ud tf_list along = Err (SchemaMismatch d) <->
  along = "row" /\
  exists tf0 rest tf,
    tf_list = tf0 :: rest /\ d = col_names_dict tf0 /\ In tf rest /\
    col_names_eqb (col_names_dict tf) (col_names_dict tf0) = false.
Proof.
  split.
  - intros H.
    destruct (cat_cases um ud tf_list along)
      as [[-> E]|[(Hne & -> & E)|[(Hne & -> & E)|(Hne & N1 & N2 & E)]]];
      rewrite E in H; try discriminate.
    + split; [reflexivity|].
      destruct tf_list as [|tf0 rest]; [congruence|].
      apply cat_row_err_cases in H.
      destruct H as [H|[[_ H]|(_ & _ & [H|H])]]; try discriminate.
      * apply check_col_names_err in H. destruct H as (Hd & tf & Hin & Hf).
        injection Hd as ->. exists tf0, rest, tf. auto.
      * apply check_y_err in H. destruct H as [H _]. discriminate.
    + exfalso. apply cat_col_err_cases in H.
      destruct H as [H|[[_ H]|(_ & _ & [H|H])]]; try discriminate.
      * apply col_target_err in H. destruct H as [H _]. discriminate.
      * rewrite check_duplicates_first in H.
        destruct (first_duplicated (merged_col_names tf_list)) as [[s n]|];
          discriminate.
  - intros (-> & tf0 & rest & tf & -> & -> & Hin & Hf).
    rewrite cat_row_unfold by discriminate. unfold _cat_row, check_col_names.
    now rewrite (forallb_false_In _ rest tf Hin Hf).
Qed.

(** X3: a concatenation fails with the target error exactly when it is
    along the rows, all column-name mappings equal the first frame's, and
    some frame has a target while another has none; the error tells
    whether the first frame has one. *)
Theorem target_error_iff (tf_list : list TensorFrame) (along : string)
        (b : bool) :
  cat um ud tf_list along = Err (TargetMismatch b) <->
  along = "row" /\
  exists tf0 rest,
    tf_list = tf0 :: rest /\ check_col_names tf0 rest = Ok tt /\
    mixed_targets tf_list = true /\ b = has_y tf0.
Proof.
  split.
  - intros H.
    destruct (cat_cases um ud tf_list along)
      as [[-> E]|[(Hne & -> & E)|[(Hne & -> & E)|(Hne & N1 & N2 & E)]]];
      rewrite E in H; try discriminate.
    + split; [reflexivity|].
      destruct tf_list as [|tf0 rest]; [congruence|].
      apply cat_row_err_cases in H.
      destruct H as [H|[[Hc H]|(_ & _ & [H|H])]]; try discriminate.
      * apply check_col_names_err in H. destruct H as [H _]. discriminate.
      * apply check_y_err in H. destruct H as [Hb Hm].
        injection Hb as ->. exists tf0, rest. auto.
    + exfalso. apply cat_col_err_cases in H.
      destruct H as [H|[[_ H]|(_ & _ & [H|H])]]; try discriminate.
      * apply col_target_err in H. destruct H as [H _]. discriminate.
      * rewrite check_duplicates_first in H.
        destruct (first_duplicated (merged_col_names tf_list)) as [[s n]|];
          discriminate.
  - intros (-> & tf0 & rest & -> & Hc & Hm & ->).
    rewrite cat_row_unfold by discriminate. unfold _cat_row.
    rewrite Hc. cbn [bind].
    destruct (check_y tf0 (tf0 :: rest)) as [[]|e] eqn:E.
    + apply check_y_mixed in E. congruence.
    + cbn [bind]. apply check_y_err in E. destruct E as [-> _]. reflexivity.
Qed.

(** X4: a concatenation fails with the ambiguous-target error exactly
    when it is along the columns and at least two frames carry a target. *)
Theorem ambiguous_error_iff (tf_list : list TensorFrame) (along : string) :
  cat um ud tf_list along = Err AmbiguousTargetError <->
  along = "col" /\ 2 <= length (targets tf_list).
Proof.
  split.
  - intros H.
    destruct (cat_cases um ud tf_list along)
      as [[-> E]|[(Hne & -> & E)|[(Hne & -> & E)|(Hne & N1 & N2 & E)]]];
      rewrite E in H; try discriminate.
    + exfalso. destruct tf_list as [|tf0 rest]; [congruence|].
      apply cat_row_err_cases in H.
      destruct H as [H|[[_ H]|(_ & _ & [H|H])]]; try discriminate.
      * apply check_col_names_err in H. destruct H as [H _]. discriminate.
      * apply check_y_err in H. destruct H as [H _]. discriminate.
    + split; [reflexivity|]. apply cat_col_err_cases in H.
      destruct H as [H|[[_ H]|(_ & _ & [H|H])]]; try discriminate.
      * apply col_target_err in H. tauto.
      * rewrite check_duplicates_first in H.
        destruct (first_duplicated (merged_col_names tf_list)) as [[s n]|];
          discriminate.
  - intros [-> H]. rewrite cat_col_unfold.
    + unfold _cat_col. now rewrite col_target_ambiguous.
    + intros ->. simpl in H. lia.
Qed.

(** X5: a concatenation fails with the duplicate-column error exactly
    when it is along the columns, at most one frame carries a target, and
    some semantic type's combined name list repeats a name; the error
    names the first such type in the order the types are first met and
    lists the names that occur more than once in its combined list. *)
Theorem duplicate_error_iff (tf_list : list TensorFrame) (along : string)
        (s : stype) (dups : list string) :
  Forall (fun tf => NoDup (keys (col_names_dict tf))) tf_list ->
  (cat um ud tf_list along = Err (DuplicateColumnError s dups) <->
   along = "col" /\ length (targets tf_list) <= 1 /\
   first_duplicated (merged_col_names tf_list)
   = Some (s, combined_names s tf_list) /\
   dups = _get_duplicates (combined_names s tf_list)).
Proof.
  intros Hwf. split.
  - intros H.
    destruct (cat_cases um ud tf_list along)
      as [[-> E]|[(Hne & -> & E)|[(Hne & -> & E)|(Hne & N1 & N2 & E)]]];
      rewrite E in H; try discriminate.
    + exfalso. destruct tf_list as [|tf0 rest]; [congruence|].
      apply cat_row_err_cases in H.
      destruct H as [H|[[_ H]|(_ & _ & [H|H])]]; try discriminate.
      * apply check_col_names_err in H. destruct H as [H _]. discriminate.
      * apply check_y_err in H. destruct H as [H _]. discriminate.
    + split; [reflexivity|]. apply cat_col_err_cases in H.
      destruct H as [H|[[Hle H]|(_ & _ & [H|H])]]; try discriminate.
      * apply col_target_err in H. destruct H as [H _]. discriminate.
      * split; [assumption|]. rewrite check_duplicates_first in H.
        destruct (first_duplicated (merged_col_names tf_list))
          as [[s' names]|] eqn:F; [|discriminate].
        injection H as -> <-.
        assert (Hn : names = combined_names s tf_list).
        { apply merged_entry; auto. unfold first_duplicated in F.
          apply find_some in F. tauto. }
        subst names. auto.
  - intros (-> & Hle & F & ->).
    assert (Hne : tf_list <> []).
    { intros ->. discriminate. }
    rewrite cat_col_unfold by assumption. unfold _cat_col.
    destruct (col_target_total tf_list Hle) as [tgt ->]. cbn [bind].
    now rewrite check_duplicates_first, F.
Qed.

(** X6: [_get_duplicates] returns exactly the names that occur more than
    once, each once, and returns nothing exactly when no name repeats. *)
Theorem get_duplicates_spec (lst : list string) :
  (forall n, In n (_get_duplicates lst) <->
             2 <= count_occ string_dec lst n) /\
  NoDup (_get_duplicates lst) /\
  (_get_duplicates lst = [] <-> NoDup lst).
Proof.
  split; [apply In_get_duplicates|]. split; [apply NoDup_get_duplicates|].
  apply get_duplicates_nil.
Qed.

(** ** Types and names of a result *)

Lemma mapM_entries_keys {V W} (f : stype -> V -> result W) l r :
  mapM (fun kv => d <- f (fst kv) (snd kv) ;; Ok (fst kv, d)) l = Ok r ->
  keys r = keys l.
Proof.
  revert r; induction l as [|[k w] l IH]; simpl; intros r H.
  - now injection H as <-.
  - bind_inv H. bind_inv H. injection H as <-.
    bind_inv Hstep. injection Hstep as <-. simpl. f_equal. auto.
Qed.

(** X7: the storage [_cat_helper] returns has one entry for each semantic
    type some input stores, and no other; no type occurs twice. *)
Theorem cat_helper_types (tf_list : list TensorFrame) (dim : nat)
        (feat : list (stype * TensorData)) :
  _cat_helper um ud tf_list dim = Ok feat ->
  NoDup (keys feat) /\
  forall s, In s (keys feat) <->
            exists tf, In tf tf_list /\ In s (keys (feat_dict tf)).
Proof.
  unfold _cat_helper. intros H.
  apply (mapM_entries_keys (fun s l => cat_feat um ud s l dim)) in H.
  rewrite H. split; [apply feat_list_dict_NoDup|].
  intros s. unfold feat_list_dict.
  rewrite (In_keys_fold one_storage feat_dict). simpl. tauto.
Qed.

(** X8: in the result of a successful column concatenation the names of
    each semantic type are the inputs' names of that type joined in input
    order, no name occurs twice within a type, and the types that have
    names are those of the inputs. *)
Theorem cat_col_result (tf_list : list TensorFrame) (out : TensorFrame) :
  Forall (fun tf => NoDup (keys (col_names_dict tf))) tf_list ->
  cat um ud tf_list "col" = Ok out ->
  (forall s, dd_lookup stype_eq_dec s (col_names_dict out)
             = combined_names s tf_list) /\
  (forall s, NoDup (combined_names s tf_list)) /\
  (forall s, In s (keys (col_names_dict out)) <->
             exists tf, In tf tf_list /\ In s (keys (col_names_dict tf))).
Proof.
  intros Hwf H. apply cat_col_ok_inv in H.
  destruct H as (_ & Hc & _ & Hn & _). rewrite Hn.
  split; [|split].
  - intros s. now apply merged_col_names_lookup.
  - intros s. rewrite <- (merged_col_names_lookup tf_list s Hwf).
    unfold dd_lookup.
    destruct (dict_get stype_eq_dec s (merged_col_names tf_list)) eqn:G;
      [|constructor].
    apply dict_get_In in G. eapply check_duplicates_ok; eauto.
  - intros s. unfold merged_col_names.
    rewrite (In_keys_fold snd col_names_dict). simpl. tauto.
Qed.

(** ** Concatenating a single frame *)

Lemma dd_extend_fresh {A} k (xs : list A) d :
  ~ In k (keys d) -> dd_extend stype_eq_dec k xs d = d ++ [(k, xs)].
Proof.
  induction d as [|[k' l] d IH]; simpl; intros Hn; auto.
  destruct (stype_eq_dec k k') as [->|Hkk]; [exfalso; auto|].
  f_equal. apply IH. auto.
Qed.

Lemma fold_extend_fresh {A B} (g : stype * B -> list A) d : forall acc,
  NoDup (keys acc ++ keys d) ->
  fold_left (fun acc kv => dd_extend stype_eq_dec (fst kv) (g kv) acc) d acc
  = acc ++ map (fun kv => (fst kv, g kv)) d.
Proof.
  induction d as [|[k v] d IH]; simpl; intros acc N.
  - now rewrite app_nil_r.
  - rewrite dd_extend_fresh.
    + rewrite IH.
      * now rewrite <- app_assoc.
      * unfold keys in *. rewrite map_app, <- app_assoc. exact N.
    + apply NoDup_remove_2 in N. intros Hin. apply N.
      apply in_or_app. auto.
Qed.

Lemma feat_list_dict_single tf :
  NoDup (keys (feat_dict tf)) ->
  feat_list_dict [tf] = map (fun kv => (fst kv, [snd kv])) (feat_dict tf).
Proof.
  intros N. unfold feat_list_dict.
  exact (fold_extend_fresh one_storage (feat_dict tf) [] N).
Qed.

Lemma mnt_cat_single m : mnt_cat [m] 0 = Ok m.
Proof. unfold mnt_cat. simpl. now rewrite app_nil_r. Qed.

Lemma group_single g0 :
  NoDup (keys g0) ->
  forall g, incl g g0 ->
    mapM (fun name =>
            ts <- mapM (fun feat => g <- as_group feat ;; getitem name g)
                       [Group g0] ;;
            m <- mnt_cat ts 0 ;;
            Ok (name, m)) (keys g) = Ok g.
Proof.
  intros N.
  set (F := fun name : string =>
              ts <- mapM (fun feat => g <- as_group feat ;; getitem name g)
                         [Group g0] ;;
              m <- mnt_cat ts 0 ;;
              Ok (name, m)).
  induction g as [|[name m] g IH]; intros Hincl; [reflexivity|].
  change (keys ((name, m) :: g)) with (name :: keys g). cbn [mapM].
  rewrite IH by (intros x Hx; apply Hincl; simpl; auto).
  assert (HF : F name = Ok (name, m)).
  { subst F. cbn [mapM as_group bind]. unfold getitem.
    rewrite (In_dict_get string_dec name m g0 N)
      by (apply Hincl; simpl; auto).
    cbn [bind]. now rewrite mnt_cat_single. }
  rewrite HF. reflexivity.
Qed.

Lemma cat_feat_single s d :
  kind_ok um ud s d = true -> cat_feat um ud s [d] 0 = Ok d.
Proof.
  unfold kind_ok, cat_feat. destruct (um s); [|destruct (ud s)].
  - destruct d as [|m|]; try discriminate. intros _.
    cbn [mapM as_ragged bind]. now rewrite mnt_cat_single.
  - destruct d as [| |g]; try discriminate. intros N.
    apply nodupb_NoDup in N. unfold cat_group. cbn [as_group bind].
    rewrite (group_single g N g) by apply incl_refl. reflexivity.
  - destruct d as [t| |]; try discriminate. intros _.
    cbn [mapM as_dense bind]. unfold torch_cat. destruct t as [n0 n1 vs].
    simpl. now rewrite Nat.add_0_r, app_nil_r.
Qed.

Lemma cat_helper_single tf :
  NoDup (keys (feat_dict tf)) -> well_kinded um ud tf = true ->
  _cat_helper um ud [tf] 0 = Ok (feat_dict tf).
Proof.
  intros N Hk. unfold _cat_helper. rewrite feat_list_dict_single by assumption.
  unfold well_kinded in Hk. clear N.
  induction (feat_dict tf) as [|[s d] fd IH]; [reflexivity|].
  simpl in Hk. apply andb_true_iff in Hk. destruct Hk as [Hd Hk].
  cbn [map mapM fst snd]. rewrite (cat_feat_single s d Hd). cbn [bind].
  rewrite (IH Hk). reflexivity.
Qed.

(** X9: concatenating a single valid frame along the rows returns that
    frame, provided each storage is of the kind its semantic type
    declares. *)
Theorem cat_row_single (tf : TensorFrame) :
  valid tf = true -> well_kinded um ud tf = true ->
  cat um ud [tf] "row" = Ok tf.
Proof.
  intros V Hk. rewrite cat_row_unfold by discriminate.
  unfold _cat_row, check_col_names, check_y. cbn [forallb bind].
  assert (N : NoDup (keys (feat_dict tf))).
  { apply frame_ok_inv in V. tauto. }
  rewrite (cat_helper_single tf N Hk).
  destruct tf as [fd cn [v|]]; cbn [y is_none negb andb bind feat_dict
                                      col_names_dict] in *.
  - unfold cat_y. cbn [mapM y bind concat]. rewrite app_nil_r.
    unfold new_TensorFrame. unfold valid in V. cbn in V. now rewrite V.
  - unfold new_TensorFrame. unfold valid in V. cbn in V. now rewrite V.
Qed.

(** ** Dense storage of a row concatenation *)

Lemma Forall2_trans {A B C} (R1 : A -> B -> Prop) (R2 : B -> C -> Prop)
      l1 l2 l3 :
  Forall2 R1 l1 l2 -> Forall2 R2 l2 l3 ->
  Forall2 (fun a c => exists b, R1 a b /\ R2 b c) l1 l3.
Proof.
  intros H12. revert l3.
  induction H12 as [|a b l1 l2 Hab _ IH]; intros l3 H23; inversion H23; subst;
    constructor; eauto.
Qed.

Lemma torch_cat_rows_spec ts t :
  torch_cat ts 0 = Ok t ->
  size0 t = list_sum (map size0 ts) /\
  values t = concat (map values ts) /\
  Forall (fun ti => size1 ti = size1 t) ts.
Proof.
  unfold torch_cat. destruct ts as [|t0 rest]; [discriminate|].
  match goal with
  | |- context [forallb ?f rest] => destruct (forallb f rest) eqn:E
  end; [|discriminate].
  intros H. injection H as <-. cbn [size0 size1 values].
  repeat split. constructor; [reflexivity|].
  rewrite forallb_forall in E. apply Forall_forall.
  intros ti Hti. apply Nat.eqb_eq. auto.
Qed.

(** X10: in a successful row concatenation of valid frames, a semantic
    type of the first input that is stored as a dense tensor has, in the
    result, the inputs' tensors stacked in input order: the values follow
    one another, the rows add up, and the width is that of every input. *)
Theorem cat_row_dense_storage (tf0 : TensorFrame) (rest : list TensorFrame)
        (out : TensorFrame) (s : stype) :
  Forall (fun tf => valid tf = true) (tf0 :: rest) ->
  cat um ud (tf0 :: rest) "row" = Ok out ->
  um s = false -> ud s = false ->
  In s (keys (feat_dict tf0)) ->
  exists t ts,
    sget s (feat_dict out) = Some (Dense t) /\
    Forall2 (fun tf ti => sget s (feat_dict tf) = Some (Dense ti))
            (tf0 :: rest) ts /\
    size0 t = list_sum (map size0 ts) /\
    values t = concat (map values ts) /\
    Forall (fun ti => size1 ti = size1 t) ts.
Proof.
  intros Hv H Hum Hud Hs. apply cat_row_ok_inv in H.
  destruct H as (tf0' & rest' & Hl & Hcn & _ & _ & Hh & _ & _).
  injection Hl as <- <-.
  pose proof Hv as Hv'. rewrite Forall_forall in Hv'.
  assert (Hwf : forall tf, In tf (tf0 :: rest) -> NoDup (keys (feat_dict tf))).
  { intros tf Htf. specialize (Hv' _ Htf). apply frame_ok_inv in Hv'. tauto. }
  assert (Hal : Forall2 (fun tf di => In (s, di) (feat_dict tf)) (tf0 :: rest)
                  (dd_lookup stype_eq_dec s (feat_list_dict (tf0 :: rest)))).
  { apply storages_aligned. apply Forall_forall. intros tf Htf.
    split; [auto|]. destruct Htf as [<-|Htf]; auto.
    apply (same_schema_has_storage tf0); auto.
    - apply Hv'; simpl; auto.
    - apply Hv'; simpl; auto.
    - eapply check_col_names_ok; eauto. }
  assert (Hne : dd_lookup stype_eq_dec s (feat_list_dict (tf0 :: rest)) <> []).
  { intros E. rewrite E in Hal. inversion Hal. }
  destruct (cat_helper_lookup um ud _ _ _ _ _ Hh (dd_lookup_nonempty _ _ Hne))
    as (d & Hd & Hget).
  unfold cat_feat in Hd. rewrite Hum, Hud in Hd.
  bind_inv Hd. bind_inv Hd. injection Hd as <-.
  exists a0, a. split; [exact Hget|].
  split; [|now apply torch_cat_rows_spec].
  apply mapM_ok_Forall2 in Hstep.
  pose proof (Forall2_trans _ _ _ _ _ Hal Hstep) as Hc.
  clear - Hc Hwf.
  assert (Hgen : forall l ts,
    (forall tf, In tf l -> NoDup (keys (feat_dict tf))) ->
    Forall2 (fun tf ti => exists di, In (s, di) (feat_dict tf) /\
                                     as_dense di = Ok ti) l ts ->
    Forall2 (fun tf ti => sget s (feat_dict tf) = Some (Dense ti)) l ts).
  { intros l ts Hw HF. induction HF as [|tf ti l ts (di & Hin & Hdi) _ IH];
      constructor.
    - destruct di; try discriminate. injection Hdi as ->.
      apply In_dict_get; auto. apply Hw. simpl; auto.
    - apply IH. intros tf' Htf'. apply Hw. simpl; auto. }
  apply Hgen; auto.
Qed.

End ConcatExtras.

(* ------------------------------------------------------------------ *)
(** ** Further properties of the column statistics *)

Lemma mask_inf_all_null ser :
  forallb null_or_inf ser = true -> forallb isnull (mask_inf ser) = true.
Proof.
  unfold mask_inf. induction ser as [|c ser IH]; simpl; auto.
  intros H. apply andb_true_iff in H. destruct H as [Hc H].
  rewrite (IH H), andb_true_r.
  destruct c as [f| | |]; simpl in *; auto.
  destruct f; simpl in *; auto.
Qed.

Lemma isnull_null_or_inf ser :
  forallb isnull ser = true -> forallb null_or_inf ser = true.
Proof.
  rewrite !forallb_forall. intros H c Hc. specialize (H _ Hc).
  destruct c; simpl in *; auto. now rewrite H.
Qed.

Lemma float_column_flat l :
  forallb float_or_none l = true -> forallb isnull l = false ->
  flat_values (dropna l) <> [].
Proof.
  unfold flat_values, dropna. induction l as [|c l IH]; simpl; [discriminate|].
  intros Hf Hn. apply andb_true_iff in Hf. destruct Hf as [Hc Hf].
  destruct (isnull c) eqn:E; simpl.
  - simpl in Hn. auto.
  - destruct c; simpl in *; try discriminate.
Qed.

Lemma float_or_none_mask_inf ser :
  forallb float_or_none ser = true ->
  forallb float_or_none (mask_inf ser) = true.
Proof.
  unfold mask_inf. induction ser as [|c ser IH]; simpl; auto.
  intros H. apply andb_true_iff in H. destruct H as [Hc H].
  rewrite (IH H), andb_true_r.
  destruct c as [f| | |]; auto. destruct (isinf f); reflexivity.
Qed.

Lemma float_or_none_num ser :
  forallb float_or_none ser = true -> forallb num_or_null ser = true.
Proof.
  rewrite !forallb_forall. intros H c Hc. specialize (H _ Hc).
  destruct c; simpl in *; auto.
Qed.

Lemma list_sum_perm l1 l2 : Permutation l1 l2 -> list_sum l1 = list_sum l2.
Proof. induction 1; simpl; lia. Qed.

Lemma count_add_sum (x : cell) c :
  list_sum (map snd (count_add cell_eq_dec x c)) = S (list_sum (map snd c)).
Proof.
  induction c as [|[k n] c IH]; simpl; auto.
  destruct (cell_eq_dec x k); simpl; [reflexivity|]. rewrite IH. lia.
Qed.

Lemma count_items_sum l :
  list_sum (map snd (count_items cell_eq_dec l)) = length l.
Proof.
  unfold count_items.
  assert (H : forall acc,
            list_sum (map snd (fold_left
                                 (fun c x => count_add cell_eq_dec x c) l acc))
            = list_sum (map snd acc) + length l).
  { induction l as [|x l IH]; simpl; intros acc; [lia|].
    rewrite IH, count_add_sum. lia. }
  now rewrite H.
Qed.

Lemma hash_count_sum l : list_sum (map snd (hash_count l)) = length l.
Proof.
  replace (map snd (hash_count l)) with (map snd (keyed (hash_count l))).
  - now rewrite hash_count_keyed, count_items_sum, length_map.
  - unfold keyed. rewrite map_map. reflexivity.
Qed.

Lemma list_min_spec l : forall d,
  In (list_min d l) (d :: l) /\ Forall (fun v => (list_min d l <= v)%Z) l.
Proof.
  induction l as [|x l IH]; intros d; simpl.
  - split; [auto | constructor].
  - destruct (IH x) as [Hin Hle]. split.
    + right. destruct (Z.min_spec x (list_min x l)) as [[_ ->]|[_ ->]];
        simpl; auto.
    + constructor; [apply Z.le_min_l|].
      eapply Forall_impl; [|exact Hle]. simpl. intros v Hv.
      pose proof (Z.le_min_r x (list_min x l)). lia.
Qed.

Lemma list_max_spec l : forall d,
  In (list_max d l) (d :: l) /\ Forall (fun v => (v <= list_max d l)%Z) l.
Proof.
  induction l as [|x l IH]; intros d; simpl.
  - split; [auto | constructor].
  - destruct (IH x) as [Hin Hle]. split.
    + right. destruct (Z.max_spec x (list_max x l)) as [[_ ->]|[_ ->]];
        simpl; auto.
    + constructor; [apply Z.le_max_l|].
      eapply Forall_impl; [|exact Hle]. simpl. intros v Hv.
      pose proof (Z.le_max_r x (list_max x l)). lia.
Qed.

Section StatsExtras.
Variable np_mean : list float -> float.
Variable np_std : list float -> float.
Variable np_quantile : list float -> list float -> list float.
Variable to_datetime_year : option string -> cell -> result Z.
Variable sort_values : list (cell * nat) -> list (cell * nat).

Local Notation "'col_stats'" :=
  (compute_col_stats np_mean np_std np_quantile to_datetime_year sort_values).

(** X11: the record [compute_col_stats] returns holds exactly the
    statistics that apply to the semantic type, in their order; for a type
    without statistics (text-embedded, embedding) it is empty whatever the
    column holds. *)
Theorem col_stats_keys (ser : Series) (s : stype)
        (sep time_format : option string) :
  (forall r, col_stats ser s sep time_format = Ok r ->
             map fst r = stats_for_stype s) /\
  (stats_for_stype s = [] -> col_stats ser s sep time_format = Ok []).
Proof.
  unfold compute_col_stats. cbv zeta. split.
  - intros r.
    match goal with
    | |- context [forallb isnull ?x] => destruct (forallb isnull x)
    end.
    + intros H. injection H as <-. rewrite map_map. simpl. apply map_id.
    + generalize (stats_for_stype s) as l. intros l. revert r.
      induction l as [|st l IH]; simpl; intros r H.
      * now injection H as <-.
      * bind_inv H. bind_inv H. injection H as <-.
        bind_inv Hstep. injection Hstep as <-. simpl. f_equal. auto.
  - intros ->.
    match goal with
    | |- context [forallb isnull ?x] => destruct (forallb isnull x)
    end; reflexivity.
Qed.

(** X12: a column whose cells are all missing (the empty column too) gets
    the default of every statistic that applies, whatever the semantic
    type and without a separator or a time format being needed; for a
    numerical column infinite cells count as missing here. *)
Theorem col_stats_all_missing (ser : Series) (s : stype)
        (sep time_format : option string) :
  (forallb isnull ser = true ->
   col_stats ser s sep time_format
   = Ok (map (fun st => (st, _default_values st)) (stats_for_stype s))) /\
  (forallb null_or_inf ser = true ->
   col_stats ser numerical sep time_format = Ok sentinel).
Proof.
  unfold compute_col_stats. cbv zeta. split.
  - intros H. destruct (stype_eq_dec s numerical).
    + now rewrite (mask_inf_all_null ser (isnull_null_or_inf ser H)).
    + now rewrite H.
  - intros H. destruct (stype_eq_dec numerical numerical); [|congruence].
    now rewrite (mask_inf_all_null ser H).
Qed.

(** X13: the statistics of a numerical column of floats never fail: they
    are the sentinel record when the column has no finite value, and the
    mean, standard deviation and quantiles of its finite values (missing
    and infinite cells left out) otherwise. *)
Theorem numerical_column_stats (ser : Series)
        (sep time_format : option string) :
  forallb float_or_none ser = true ->
  col_stats ser numerical sep time_format =
  Ok (match finite_values ser with
      | [] => sentinel
      | fin => numeric_record np_mean np_std np_quantile fin
      end).
Proof.
  intros Hf.
  rewrite (numeric_stats_spec np_mean np_std np_quantile to_datetime_year
             sort_values ser numerical sep time_format (or_introl eq_refl)
             (float_or_none_num ser Hf)).
  - destruct (finite_values ser); reflexivity.
  - cbn. destruct (forallb isnull (mask_inf ser)) eqn:E; [auto|].
    right. apply float_column_flat; auto.
    now apply float_or_none_mask_inf.
Qed.

(** X14: for a sequence-numerical column (cells are sequences of floats
    or missing) with a non-missing cell, the statistics are computed
    exactly when the non-missing cells hold at least one value together,
    finite or not: then they are the sentinel record or the statistics of
    the finite values; when all non-missing cells are empty the
    computation raises. *)
Theorem sequence_column_stats (ser : Series)
        (sep time_format : option string) :
  forallb num_or_null ser = true ->
  forallb isnull ser = false ->
  (flat_values (dropna ser) <> [] ->
   col_stats ser sequence_numerical sep time_format =
   Ok (match finite_values ser with
       | [] => sentinel
       | fin => numeric_record np_mean np_std np_quantile fin
       end)) /\
  (flat_values (dropna ser) = [] ->
   col_stats ser sequence_numerical sep time_format = Err ValueError).
Proof.
  intros Hn Hnull. split.
  - intros Hflat.
    rewrite (numeric_stats_spec np_mean np_std np_quantile to_datetime_year
               sort_values ser sequence_numerical sep time_format (or_intror eq_refl) Hn).
    + destruct (finite_values ser); reflexivity.
    + cbn. auto.
  - intros Hflat. unfold compute_col_stats.
    destruct (stype_eq_dec sequence_numerical numerical); [discriminate|].
    rewrite Hnull. cbn [stats_for_stype mapM compute].
    assert (Hm : exists arrs, mapM atleast_1d (dropna ser) = Ok arrs /\
                              arrs <> [] /\ concat arrs = []).
    { assert (Hne : dropna ser <> []).
      { intros E. clear - Hnull E. unfold dropna in E.
        induction ser as [|c ser IH]; simpl in *; [discriminate|].
        destruct (isnull c); simpl in *; [auto | discriminate]. }
      assert (Hnn := forallb_notnull_dropna ser).
      assert (Hn' := num_or_null_dropna ser Hn).
      revert Hne Hflat Hnn Hn'. generalize (dropna ser) as l.
      induction l as [|c l IH]; intros Hne Hflat Hnn Hn'; [congruence|].
      simpl in Hnn, Hn'. apply andb_true_iff in Hnn, Hn'.
      destruct Hnn as [Hc Hnn], Hn' as [Hc' Hn'].
      unfold flat_values in Hflat. simpl in Hflat.
      apply app_eq_nil in Hflat. destruct Hflat as [Hc0 Hflat].
      destruct l as [|c2 l].
      - destruct c as [f|s0|v|]; simpl in *; try discriminate.
        subst v. exists [[]]. repeat split; discriminate.
      - destruct (IH ltac:(discriminate) Hflat Hnn Hn') as (arrs & Ha & _ & Hc2).
        destruct c as [f|s0|v|]; simpl in Hc0, Hc, Hc'; try discriminate.
        subst v. exists ([] :: arrs).
        split; [|split; [discriminate | exact Hc2]].
        change (mapM atleast_1d (CList [] :: c2 :: l))
          with (b <- atleast_1d (CList []) ;;
                bs <- mapM atleast_1d (c2 :: l) ;; Ok (b :: bs)).
        rewrite Ha. reflexivity. }
    destruct Hm as (arrs & Ha & Hne & Hc).
    unfold flatten. rewrite Ha. cbn [bind].
    destruct arrs as [|a0 arrs]; [congruence|].
    unfold np_hstack at 1. cbn [bind]. rewrite Hc. reflexivity.
Qed.

(** X15: in the frequency table of a categorical column, for a sort by
    descending count, the two lists have the same length, every count is
    at least one, and the counts add up to the number of non-missing
    cells. *)
Theorem count_total (ser : Series) (sep time_format : option string)
        (index : list cell) (counts : list nat) :
  sorts_descending sort_values ->
  forallb hashable ser = true ->
  col_stats ser categorical sep time_format = Ok [(COUNT, VCount index counts)] ->
  length index = length counts /\
  Forall (fun n => 1 <= n) counts /\
  list_sum counts = length (dropna ser).
Proof.
  intros Hs Hh H.
  rewrite (categorical_table np_mean np_std np_quantile to_datetime_year
             sort_values ser sep time_format Hs Hh) in H.
  injection H as <- <-.
  destruct (Hs (hash_count (dropna ser))) as [P _].
  split; [now rewrite !length_map|]. split.
  - apply Forall_forall. intros n Hn. apply in_map_iff in Hn.
    destruct Hn as ([c n'] & <- & Hin).
    apply (Permutation_in _ (Permutation_sym P)) in Hin.
    apply hash_count_table in Hin. simpl. tauto.
  - rewrite <- (list_sum_perm _ _ (Permutation_map snd P)).
    apply hash_count_sum.
Qed.

(** X16: for a timestamp column with a non-missing cell whose non-missing
    cells all parse, the year range is a pair of parsed years that bound
    every parsed year. *)
Theorem year_range_bounds (ser : Series) (sep time_format : option string)
        (years : list Z) :
  forallb isnull ser = false ->
  mapM (to_datetime_year time_format) (dropna ser) = Ok years ->
  exists lo hi,
    col_stats ser timestamp sep time_format
    = Ok [(YEAR_RANGE, VInts [lo; hi])] /\
    In lo years /\ In hi years /\
    Forall (fun v => (lo <= v <= hi)%Z) years.
Proof.
  intros Hnull Hm. unfold compute_col_stats.
  destruct (stype_eq_dec timestamp numerical); [discriminate|].
  rewrite Hnull. cbn [stats_for_stype mapM compute]. rewrite Hm. cbn [bind].
  destruct years as [|y0 years].
  - exfalso. apply mapM_ok_Forall2 in Hm. inversion Hm as [E|]; subst.
    clear - Hnull E. unfold dropna in E.
    induction ser as [|c ser IH]; simpl in *; [discriminate|].
    destruct (isnull c); simpl in *; [auto | discriminate].
  - exists (list_min y0 (y0 :: years)), (list_max y0 (y0 :: years)).
    split; [reflexivity|].
    destruct (list_min_spec (y0 :: years) y0) as [Hin1 Hle1].
    destruct (list_max_spec (y0 :: years) y0) as [Hin2 Hle2].
    split; [|split].
    + destruct Hin1 as [E|Hin1]; [rewrite <- E; simpl; auto | exact Hin1].
    + destruct Hin2 as [E|Hin2]; [rewrite <- E; simpl; auto | exact Hin2].
    + rewrite Forall_forall in *. intros v Hv.
      specialize (Hle1 _ Hv). specialize (Hle2 _ Hv). lia.
Qed.

End StatsExtras.

(* ------------------------------------------------------------------ *)
(** ** Input of the CatBoost wrapper *)

Lemma map_fst_combine {A B} (l1 : list A) (l2 : list B) :
  length l1 = length l2 -> map fst (combine l1 l2) = l1.
Proof.
  revert l2; induction l1 as [|a l1 IH]; intros [|b l2]; simpl; intros H;
    try discriminate; auto.
  f_equal. auto.
Qed.

Lemma pd_DataFrame_columns feat off :
  map fst (pd_DataFrame feat (seq off (size1 feat))) = seq off (size1 feat).
Proof.
  unfold pd_DataFrame. apply map_fst_combine.
  now rewrite length_map, !length_seq.
Qed.

Lemma pd_concat_columns dfs :
  map fst (pd_concat dfs) = concat (map (map fst) dfs).
Proof.
  unfold pd_concat. rewrite map_map. simpl. now rewrite concat_map.
Qed.

(** What one block of [_to_catboost_input] does to the column labels, the
    categorical indices and the offset. *)
Lemma catboost_block_spec tf s is_cat dfs cats off dfs' cats' off' :
  catboost_block tf s is_cat (dfs, cats, off) = Done (dfs', cats', off') ->
  concat (map (map fst) dfs')
  = concat (map (map fst) dfs) ++ seq off (dense_width tf s) /\
  concat cats'
  = concat cats ++ (if is_cat then seq off (dense_width tf s) else []) /\
  off' = off + dense_width tf s /\
  (dfs' = [] <-> dfs = [] /\ stores tf s = false) /\
  (cats' = [] <-> cats = [] /\ (is_cat = false \/ stores tf s = false)).
Proof.
  unfold catboost_block, dense_width, stores.
  destruct (sget s (feat_dict tf)) as [[feat|m|g]|]; try discriminate.
  - intros H. injection H as <- <- <-.
    split; [|split; [|split; [|split]]].
    + rewrite map_app, concat_app. cbn [map concat].
      now rewrite pd_DataFrame_columns, app_nil_r.
    + destruct is_cat; [|now rewrite app_nil_r].
      rewrite concat_app. cbn [concat]. now rewrite app_nil_r.
    + reflexivity.
    + split.
      * intros E. apply app_eq_nil in E. destruct E; discriminate.
      * intros [_ E]. discriminate.
    + destruct is_cat; split.
      * intros E. apply app_eq_nil in E. destruct E; discriminate.
      * intros [_ [E|E]]; discriminate.
      * intros ->. auto.
      * intros [-> _]. reflexivity.
  - intros H. injection H as <- <- <-. cbn [is_none negb seq].
    split; [|split; [|split; [|split]]].
    + now rewrite app_nil_r.
    + destruct is_cat; now rewrite app_nil_r.
    + lia.
    + split; [intros ->; auto | tauto].
    + split; [intros ->; auto | tauto].
Qed.

(** X17: when [_to_catboost_input] returns, the target is the frame's,
    the frame has categorical columns, the columns of the data frame are
    labelled 0, 1, ... over the categorical, numerical and text-embedded
    columns in this order, and the categorical indices are the labels of
    the categorical columns, which come first. *)
Theorem to_catboost_input_result (tf : TensorFrame) (df : DataFrame)
        (tgt : list Z) (cat_features : list nat) :
  _to_catboost_input tf = Done (df, tgt, cat_features) ->
  y tf = Some tgt /\
  stores tf categorical = true /\
  map fst df = seq 0 (dense_width tf categorical + dense_width tf numerical
                      + dense_width tf text_embedded) /\
  cat_features = seq 0 (dense_width tf categorical).
Proof.
  unfold _to_catboost_input. destruct (y tf) as [v|]; [|discriminate].
  destruct (catboost_block tf categorical true ([], [], 0))
    as [[[dfs1 cats1] off1]|e] eqn:B1; [|discriminate].
  cbn [attempt_bind].
  destruct (catboost_block tf numerical false (dfs1, cats1, off1))
    as [[[dfs2 cats2] off2]|e] eqn:B2; [|discriminate].
  cbn [attempt_bind].
  destruct (catboost_block tf text_embedded false (dfs2, cats2, off2))
    as [[[dfs3 cats3] off3]|e] eqn:B3; [|discriminate].
  cbn [attempt_bind].
  apply catboost_block_spec in B1, B2, B3.
  destruct B1 as (L1 & C1 & O1 & _ & N1).
  destruct B2 as (L2 & C2 & O2 & _ & N2).
  destruct B3 as (L3 & C3 & O3 & _ & N3).
  destruct (length dfs3 =? 0); [discriminate|].
  destruct cats3 as [|c3 cats4]; [discriminate|].
  intros H. injection H as <- <- <-.
  split; [reflexivity|]. split; [|split].
  - destruct (stores tf categorical) eqn:S; auto. exfalso.
    assert (E1 : cats1 = []) by (apply N1; auto).
    assert (E2 : cats2 = []) by (apply N2; auto).
    assert (E3 : c3 :: cats4 = []) by (apply N3; auto).
    discriminate.
  - rewrite pd_concat_columns, L3, L2, L1, O2, O1, !seq_app. reflexivity.
  - change (concat (c3 :: cats4) = seq 0 (dense_width tf categorical)).
    rewrite C3, C2, C1. simpl. now rewrite !app_nil_r.
Qed.

(** X18: [_to_catboost_input] refuses a frame without a target first; for
    a frame with a target whose categorical, numerical and text-embedded
    columns are dense tensors, it reports an empty frame when the frame
    has none of the three, fails inside [np.concatenate] when the frame
    has numerical or text-embedded columns but no categorical ones, and
    returns otherwise. *)
Theorem to_catboost_input_outcome (tf : TensorFrame) :
  (y tf = None -> _to_catboost_input tf = Raised TargetRequired) /\
  (y tf <> None -> catboost_ready tf = true ->
   (stores tf categorical = false -> stores tf numerical = false ->
    stores tf text_embedded = false ->
    _to_catboost_input tf = Raised EmptyFrame) /\
   (stores tf categorical = false ->
    stores tf numerical = true \/ stores tf text_embedded = true ->
    _to_catboost_input tf = Raised NothingToConcatenate) /\
   (stores tf categorical = true ->
    exists r, _to_catboost_input tf = Done r)).
Proof.
  split.
  - unfold _to_catboost_input. now intros ->.
  - intros Hy Hr. unfold _to_catboost_input, catboost_block, stores,
      catboost_ready in *.
    destruct (y tf) as [v|]; [clear Hy | congruence].
    cbn [forallb] in Hr. rewrite !andb_true_iff in Hr.
    destruct Hr as (Hc & Hn & Ht & _).
    destruct (sget categorical (feat_dict tf)) as [[fc| |]|];
      try discriminate;
      destruct (sget numerical (feat_dict tf)) as [[fn| |]|];
      try discriminate;
      destruct (sget text_embedded (feat_dict tf)) as [[ft| |]|];
      try discriminate;
      cbn; repeat split; intros; try discriminate; eauto;
      match goal with
      | H : _ \/ _ |- _ => destruct H; discriminate
      | _ => idtac
      end.
Qed.

(* ------------------------------------------------------------------ *)
(** ** The further statements at concrete inputs *)

Lemma duplicate_error_iff_witness :
  cat_ex [two_rows; three_rows_a] "col"
  = Err (DuplicateColumnError numerical ["a"]).
Proof.
  apply (proj2 (duplicate_error_iff ragged_stype group_stype
                  [two_rows; three_rows_a] "col" numerical ["a"]
                  ltac:(each_frame nodup_keys))).
  repeat split; simpl; lia.
Defined.

Lemma cat_helper_types_witness :
  exists feat,
    _cat_helper ragged_stype group_stype [two_rows; two_rows_cat] 1 = Ok feat /\
    NoDup (keys feat) /\
    forall s, In s (keys feat) <->
              exists tf, In tf [two_rows; two_rows_cat] /\
                         In s (keys (feat_dict tf)).
Proof.
  eexists. split; [reflexivity|].
  apply (cat_helper_types ragged_stype group_stype
           [two_rows; two_rows_cat] 1 _ eq_refl).
Defined.

Lemma cat_col_result_witness :
  (forall s, dd_lookup stype_eq_dec s (col_names_dict two_rows_num_cat)
             = combined_names s [two_rows; two_rows_cat]) /\
  (forall s, NoDup (combined_names s [two_rows; two_rows_cat])) /\
  (forall s, In s (keys (col_names_dict two_rows_num_cat)) <->
             exists tf, In tf [two_rows; two_rows_cat] /\
                        In s (keys (col_names_dict tf))).
Proof.
  apply (cat_col_result ragged_stype group_stype
           [two_rows; two_rows_cat] two_rows_num_cat
           ltac:(each_frame nodup_keys) eq_refl).
Defined.

Lemma cat_row_single_witness :
  cat_ex [two_rows_num_cat_y] "row" = Ok two_rows_num_cat_y /\
  cat_ex [group_frame ["m1"; "m2"]] "row" = Ok (group_frame ["m1"; "m2"]).
Proof.
  split.
  - apply (cat_row_single ragged_stype group_stype two_rows_num_cat_y);
      reflexivity.
  - apply (cat_row_single ragged_stype group_stype
             (group_frame ["m1"; "m2"])); reflexivity.
Defined.

Lemma cat_row_dense_storage_witness :
  exists out t ts,
    cat_ex [two_rows_y; three_rows_a_y] "row" = Ok out /\
    sget numerical (feat_dict out) = Some (Dense t) /\
    Forall2 (fun tf ti => sget numerical (feat_dict tf) = Some (Dense ti))
            [two_rows_y; three_rows_a_y] ts /\
    size0 t = list_sum (map size0 ts) /\
    values t = concat (map values ts) /\
    Forall (fun ti => size1 ti = size1 t) ts.
Proof.
  eexists.
  destruct (cat_row_dense_storage ragged_stype group_stype
              two_rows_y [three_rows_a_y] _ numerical
              ltac:(each_frame reflexivity) eq_refl eq_refl eq_refl
              ltac:(simpl; auto))
    as (t & ts & H).
  exists t, ts. split; [reflexivity | exact H].
Defined.

Lemma col_stats_keys_witness :
  (forall r, col_stats_ex abacba categorical None None = Ok r ->
             map fst r = [COUNT]) /\
  col_stats_ex abacba embedding None None = Ok [].
Proof.
  split.
  - apply (proj1 (col_stats_keys any_reduction any_reduction any_quantile
                    any_year stable_sort abacba categorical None None)).
  - apply (proj2 (col_stats_keys any_reduction any_reduction any_quantile
                    any_year stable_sort abacba embedding None None)).
    reflexivity.
Defined.

Lemma col_stats_all_missing_witness :
  col_stats_ex [CNone; CNone] multicategorical None None
  = Ok [(MULTI_COUNT, VCount [] [])] /\
  col_stats_ex [CNone; CFloat (S754_infinity true)] numerical None None
  = Ok sentinel.
Proof.
  split.
  - apply (proj1 (col_stats_all_missing any_reduction any_reduction
                    any_quantile any_year stable_sort [CNone; CNone] multicategorical
                    None None)).
    reflexivity.
  - apply (proj2 (col_stats_all_missing any_reduction any_reduction
                    any_quantile any_year stable_sort
                    [CNone; CFloat (S754_infinity true)] numerical
                    None None)).
    reflexivity.
Defined.

Lemma numerical_column_stats_witness :
  col_stats_ex floats_inf_none numerical None None
  = Ok (numeric_record any_reduction any_reduction any_quantile [q_025]).
Proof.
  apply (numerical_column_stats any_reduction any_reduction any_quantile
           any_year stable_sort floats_inf_none None None).
  reflexivity.
Defined.

Lemma sequence_column_stats_witness :
  col_stats_ex sequences sequence_numerical None None
  = Ok (numeric_record any_reduction any_reduction any_quantile [q_025]) /\
  col_stats_ex empty_sequences sequence_numerical None None = Err ValueError.
Proof.
  split.
  - apply (proj1 (sequence_column_stats any_reduction any_reduction
                    any_quantile any_year stable_sort sequences None None
                    eq_refl eq_refl)).
    discriminate.
  - apply (proj2 (sequence_column_stats any_reduction any_reduction
                    any_quantile any_year stable_sort empty_sequences None None
                    eq_refl eq_refl)).
    reflexivity.
Defined.

Lemma count_total_witness :
  length [CStr "a"; CStr "b"; CStr "c"] = length [3; 2; 1] /\
  Forall (fun n => 1 <= n) [3; 2; 1] /\
  list_sum [3; 2; 1] = length (dropna abacba).
Proof.
  apply (count_total any_reduction any_reduction any_quantile any_year
           stable_sort abacba None None
           [CStr "a"; CStr "b"; CStr "c"] [3; 2; 1]);
    [exact stable_sort_ok | reflexivity | reflexivity].
Defined.

Lemma year_range_bounds_witness :
  compute_col_stats any_reduction any_reduction any_quantile iso_year
                    stable_sort three_dates timestamp None None
  = Ok [(YEAR_RANGE, VInts [2019; 2021]%Z)] /\
  exists lo hi,
    compute_col_stats any_reduction any_reduction any_quantile iso_year
                      stable_sort three_dates timestamp None None
    = Ok [(YEAR_RANGE, VInts [lo; hi])] /\
    In lo [2020; 2019; 2021]%Z /\ In hi [2020; 2019; 2021]%Z /\
    Forall (fun v => (lo <= v <= hi)%Z) [2020; 2019; 2021]%Z.
Proof.
  split; [reflexivity|].
  apply (year_range_bounds any_reduction any_reduction any_quantile iso_year
           stable_sort three_dates None None [2020; 2019; 2021]%Z);
    reflexivity.
Defined.

Lemma to_catboost_input_result_witness :
  exists df cat_features,
    _to_catboost_input two_rows_num_cat_y = Done (df, [10; 20]%Z, cat_features) /\
    map fst df = [0; 1] /\ cat_features = [0].
Proof.
  eexists. eexists. split; [reflexivity|].
  destruct (to_catboost_input_result two_rows_num_cat_y _ _ _ eq_refl)
    as (_ & _ & Hcols & Hcats).
  split; [exact Hcols | exact Hcats].
Defined.

Lemma to_catboost_input_outcome_witness :
  _to_catboost_input two_rows = Raised TargetRequired /\
  _to_catboost_input (group_frame ["m1"])
  = Raised TargetRequired /\
  _to_catboost_input two_rows_y = Raised NothingToConcatenate /\
  exists r, _to_catboost_input two_rows_num_cat_y = Done r.
Proof.
  split; [|split; [|split]].
  - apply (proj1 (to_catboost_input_outcome two_rows)). reflexivity.
  - apply (proj1 (to_catboost_input_outcome (group_frame ["m1"]))).
    reflexivity.
  - apply (proj2 (to_catboost_input_outcome two_rows_y)
                 ltac:(discriminate) eq_refl).
    + reflexivity.
    + left. reflexivity.
  - apply (proj2 (to_catboost_input_outcome two_rows_num_cat_y)
                 ltac:(discriminate) eq_refl).
    reflexivity.
Defined.

(* ------------------------------------------------------------------ *)
(** ** Row counts and duplicate names of a column concatenation *)

Lemma find_split {A} (f : A -> bool) l x :
  find f l = Some x ->
  exists before after,
    l = before ++ x :: after /\ f x = true /\
    forall a, In a before -> f a = false.
Proof.
  induction l as [|a l IH]; simpl; [discriminate|].
  destruct (f a) eqn:E.
  - intros H. injection H as <-. exists [], l. simpl. tauto.
  - intros H. destruct (IH H) as (before & after & -> & Hx & Hb).
    exists (a :: before), after. simpl. repeat split; auto.
    intros a' [<-|Hin]; auto.
Qed.

(** The first entry that repeats a name: the entries before it repeat
    none. *)
Lemma first_duplicated_split d s names :
  first_duplicated d = Some (s, names) ->
  exists before after,
    d = before ++ (s, names) :: after /\
    _get_duplicates names <> [] /\
    forall s' names', In (s', names') before -> NoDup names'.
Proof.
  unfold first_duplicated. intros H.
  destruct (find_split _ _ _ H) as (before & after & E & Hx & Hb).
  exists before, after. split; [exact E|]. split.
  - simpl in Hx. intros E'. rewrite E' in Hx. discriminate.
  - intros s' names' Hin. specialize (Hb _ Hin). simpl in Hb.
    apply get_duplicates_nil.
    destruct (_get_duplicates names'); [reflexivity | discriminate].
Qed.

Lemma first_duplicated_some d s names :
  In (s, names) d -> _get_duplicates names <> [] ->
  exists s' names', first_duplicated d = Some (s', names').
Proof.
  intros Hin Hd. unfold first_duplicated.
  destruct (find (fun kv => 0 <? length (_get_duplicates (snd kv))) d)
    as [[s' names']|] eqn:E; [eauto|].
  exfalso. pose proof (find_none _ _ E _ Hin) as Hf. simpl in Hf.
  destruct (_get_duplicates names); [congruence | discriminate].
Qed.

Lemma combined_entry tf_list s n :
  Forall (fun tf => NoDup (keys (col_names_dict tf))) tf_list ->
  2 <= count_occ string_dec (combined_names s tf_list) n ->
  In (s, combined_names s tf_list) (merged_col_names tf_list).
Proof.
  intros Hwf Hn. rewrite <- (merged_col_names_lookup tf_list s Hwf) in *.
  unfold dd_lookup in *.
  destruct (dict_get stype_eq_dec s (merged_col_names tf_list)) eqn:G.
  - now apply dict_get_In in G.
  - simpl in Hn. lia.
Qed.

(** Every list of storages that [_cat_helper] collects holds one. *)
Lemma dd_extend_nonempty {A} k (xs : list A) d :
  xs <> [] -> Forall (fun kv => snd kv <> []) d ->
  Forall (fun kv => snd kv <> []) (dd_extend stype_eq_dec k xs d).
Proof.
  intros Hxs. induction 1 as [|[k' l] d Hl Hd IH]; simpl.
  - repeat constructor. exact Hxs.
  - destruct (stype_eq_dec k k').
    + constructor; [|exact Hd]. simpl.
      intros E. apply app_eq_nil in E. tauto.
    + constructor; [exact Hl | exact IH].
Qed.

Lemma feat_list_dict_nonempty tf_list :
  Forall (fun kv => snd kv <> []) (feat_list_dict tf_list).
Proof.
  unfold feat_list_dict.
  assert (Hinner : forall (d : list (stype * TensorData)) acc,
            Forall (fun kv => snd kv <> []) acc ->
            Forall (fun kv => snd kv <> [])
                   (fold_left
                      (fun acc kv =>
                         dd_extend stype_eq_dec (fst kv) [snd kv] acc)
                      d acc)).
  { induction d as [|kv d IH]; simpl; auto.
    intros acc H. apply IH. apply dd_extend_nonempty; [discriminate | auto]. }
  assert (Houter : forall l acc,
            Forall (fun kv => snd kv <> []) acc ->
            Forall (fun kv => snd kv <> [])
                   (fold_left
                      (fun acc tf =>
                         fold_left
                           (fun acc kv =>
                              dd_extend stype_eq_dec (fst kv) [snd kv] acc)
                           (feat_dict tf) acc)
                      l acc)).
  { induction l as [|tf l IH]; simpl; auto. }
  apply Houter. constructor.
Qed.

Lemma mnt_cat_col_err ts e : mnt_cat ts 1 = Err e -> e = RaggedSizeError.
Proof.
  unfold mnt_cat. destruct ts as [|t0 rest]; [intros H; now injection H as <-|].
  match goal with
  | |- context [forallb ?f rest] => destruct (forallb f rest)
  end; [discriminate|]. intros H; now injection H as <-.
Qed.

Lemma torch_cat_col_err ts e : torch_cat ts 1 = Err e -> e = TorchSizeError.
Proof.
  unfold torch_cat. destruct ts as [|t0 rest]; [intros H; now injection H as <-|].
  match goal with
  | |- context [forallb ?f rest] => destruct (forallb f rest)
  end; [discriminate|]. intros H; now injection H as <-.
Qed.

Lemma as_kind_type_err d e :
  (as_dense d = Err e \/ as_ragged d = Err e \/ as_group d = Err e) ->
  e = TypeError.
Proof.
  intros [H|[H|H]]; destruct d; simpl in H; try discriminate;
    now injection H as <-.
Qed.

Section ColumnChecks.
Variable um : stype -> bool.
Variable ud : stype -> bool.

Lemma cat_group_col_err feat_list e :
  feat_list <> [] ->
  cat_group feat_list 1 = Err e -> col_storage_error e = true.
Proof.
  unfold cat_group. destruct feat_list as [|first rest]; [congruence|].
  intros _ H. apply bind_err_inv in H. destruct H as [H|(g0 & _ & H)].
  - rewrite (as_kind_type_err first e); auto.
  - apply mapM_err_In in H. destruct H as (name & _ & H).
    apply bind_err_inv in H. destruct H as [H|(ts & _ & H)].
    + apply mapM_err_In in H. destruct H as (feat & _ & H).
      apply bind_err_inv in H. destruct H as [H|(g & _ & H)].
      * rewrite (as_kind_type_err feat e); auto.
      * unfold getitem in H. destruct (dict_get string_dec name g);
          [discriminate|]. now injection H as <-.
    + apply bind_err_inv in H. destruct H as [H|(m & _ & H)]; [|discriminate].
      now rewrite (mnt_cat_col_err _ _ H).
Qed.

Lemma cat_feat_col_err s feat_list e :
  feat_list <> [] ->
  cat_feat um ud s feat_list 1 = Err e -> col_storage_error e = true.
Proof.
  intros Hne. unfold cat_feat. destruct (um s); [|destruct (ud s)]; intros H;
    apply bind_err_inv in H; destruct H as [H|(a & _ & H)].
  - apply mapM_err_In in H. destruct H as (d & _ & H).
    rewrite (as_kind_type_err d e); auto.
  - apply bind_err_inv in H. destruct H as [H|(m & _ & H)]; [|discriminate].
    now rewrite (mnt_cat_col_err _ _ H).
  - eapply cat_group_col_err; eauto.
  - discriminate.
  - apply mapM_err_In in H. destruct H as (d & _ & H).
    rewrite (as_kind_type_err d e); auto.
  - apply bind_err_inv in H. destruct H as [H|(m & _ & H)]; [|discriminate].
    now rewrite (torch_cat_col_err _ _ H).
Qed.

Lemma cat_helper_col_err tf_list e :
  _cat_helper um ud tf_list 1 = Err e -> col_storage_error e = true.
Proof.
  unfold _cat_helper. intros H. apply mapM_err_In in H.
  destruct H as (kv & Hin & H).
  apply bind_err_inv in H. destruct H as [H|(d & _ & H)]; [|discriminate].
  eapply cat_feat_col_err; [|exact H].
  pose proof (feat_list_dict_nonempty tf_list) as Hall.
  rewrite Forall_forall in Hall. now apply Hall.
Qed.

(** The last two steps of [_cat_col]. *)
Lemma cat_col_last_err tf_list e :
  _cat_col um ud tf_list = Err e ->
  length (targets tf_list) <= 1 ->
  first_duplicated (merged_col_names tf_list) = None ->
  col_storage_error e = true \/ e = FrameInvariantError.
Proof.
  unfold _cat_col. intros H Hle Hf.
  apply bind_err_inv in H. destruct H as [H|(tgt & _ & H)].
  { apply col_target_err in H. lia. }
  rewrite check_duplicates_first, Hf in H. cbn [bind] in H.
  apply bind_err_inv in H. destruct H as [H|(feat & _ & H)].
  - left. eapply cat_helper_col_err; eauto.
  - right. eapply new_TensorFrame_err; eauto.
Qed.

(** C1, as the code has it: [_cat_col] has no row-count check of its own,
    yet a column concatenation of valid frames that succeeds gives every
    input the row count of the result.  So valid frames of unequal row
    counts make it fail: with the ambiguous-target error when two or more
    inputs carry a target; else with the duplicate-column error of the
    first semantic type whose combined names repeat one; else with an
    error raised inside [_cat_helper] (the size error of a storage
    concatenation, the type error of a storage that is not of the kind
    its semantic type declares, or the key error of a member name that a
    dictionary lacks) or with the validation error of the constructor of
    the result. *)
Theorem cat_col_row_counts (tf_list : list TensorFrame) :
  Forall (fun tf => valid tf = true) tf_list ->
  (forall out, cat um ud tf_list "col" = Ok out ->
               forall tf, In tf tf_list -> num_rows tf = num_rows out) /\
  (forall tf1 tf2, In tf1 tf_list -> In tf2 tf_list ->
                   num_rows tf1 <> num_rows tf2 ->
     exists e,
       cat um ud tf_list "col" = Err e /\
       (2 <= length (targets tf_list) -> e = AmbiguousTargetError) /\
       (length (targets tf_list) <= 1 ->
        forall s names,
          first_duplicated (merged_col_names tf_list) = Some (s, names) ->
          e = DuplicateColumnError s (_get_duplicates names)) /\
       (length (targets tf_list) <= 1 ->
        first_duplicated (merged_col_names tf_list) = None ->
        col_storage_error e = true \/ e = FrameInvariantError)).
Proof.
  intros Hv. split.
  - intros out H tf Htf. eapply cat_col_rows_of_input; eauto.
  - intros tf1 tf2 H1 H2 Hne.
    destruct (cat um ud tf_list "col") as [out|e] eqn:E.
    { exfalso. apply Hne.
      rewrite (cat_col_rows_of_input um ud _ _ _ Hv E H1).
      now rewrite (cat_col_rows_of_input um ud _ _ _ Hv E H2). }
    exists e. split; [reflexivity|].
    assert (Hnil : tf_list <> []) by (intros ->; destruct H1).
    rewrite cat_col_unfold in E by assumption.
    pose proof (cat_col_last_err _ _ E) as Hlast.
    apply cat_col_err_cases in E.
    destruct E as [E|[[Hle E]|(Hle & E & _)]].
    + apply col_target_err in E. destruct E as [-> Hge].
      split; [auto|]. split; intros; lia.
    + rewrite check_duplicates_first in E.
      split; [intros; lia|]. split.
      * intros _ s names Hf. rewrite Hf in E. congruence.
      * intros _ Hf. rewrite Hf in E. discriminate.
    + rewrite check_duplicates_first in E.
      split; [intros; lia|]. split.
      * intros _ s names Hf. rewrite Hf in E. discriminate.
      * auto.
Qed.

(** C5, as the code has it: the column names of each semantic type are
    concatenated over the inputs in input order; when at most one input
    carries a target (that check runs first) and some name occurs twice in
    the combined list of some type, the column concatenation fails with the
    duplicate-column error.  The error names the first semantic type, in
    the order of the merged dictionary, whose combined list repeats a name
    (the types before it repeat none), and lists exactly the names
    occurring more than once in the combined list of that type, each
    once. *)
Theorem cat_col_duplicate_names (tf_list : list TensorFrame) :
  Forall (fun tf => NoDup (keys (col_names_dict tf))) tf_list ->
  length (targets tf_list) <= 1 ->
  (forall s, dd_lookup stype_eq_dec s (merged_col_names tf_list)
             = combined_names s tf_list) /\
  ((exists s n, 2 <= count_occ string_dec (combined_names s tf_list) n) ->
   exists s before after,
     merged_col_names tf_list
     = before ++ (s, combined_names s tf_list) :: after /\
     (forall s' names', In (s', names') before -> NoDup names') /\
     cat um ud tf_list "col"
     = Err (DuplicateColumnError
              s (_get_duplicates (combined_names s tf_list))) /\
     _get_duplicates (combined_names s tf_list) <> [] /\
     NoDup (_get_duplicates (combined_names s tf_list)) /\
     forall n, In n (_get_duplicates (combined_names s tf_list)) <->
               2 <= count_occ string_dec (combined_names s tf_list) n).
Proof.
  intros Hwf Hy. split.
  - intros s. now apply merged_col_names_lookup.
  - intros (s0 & n & Hn).
    assert (Hne : tf_list <> []).
    { intros ->. simpl in Hn. lia. }
    pose proof (combined_entry _ _ _ Hwf Hn) as Hin.
    assert (Hd : _get_duplicates (combined_names s0 tf_list) <> []).
    { apply In_get_duplicates in Hn. intros E. rewrite E in Hn. destruct Hn. }
    destruct (first_duplicated_some _ _ _ Hin Hd) as (s & names & Hf).
    destruct (first_duplicated_split _ _ _ Hf)
      as (before & after & Hsplit & Hdup & Hbefore).
    assert (Hnames : names = combined_names s tf_list).
    { apply (merged_entry tf_list s names Hwf).
      rewrite Hsplit. apply in_or_app. right. left. reflexivity. }
    subst names. exists s, before, after.
    split; [exact Hsplit|]. split; [exact Hbefore|]. split.
    + rewrite cat_col_unfold by assumption. unfold _cat_col.
      destruct (col_target_total tf_list Hy) as [tgt ->]. cbn [bind].
      now rewrite check_duplicates_first, Hf.
    + split; [exact Hdup|]. split; [apply NoDup_get_duplicates|].
      intros m. apply In_get_duplicates.
Qed.

End ColumnChecks.

(** C1 as stated does not hold: two valid frames of two and of three rows
    that both carry a target fail with the ambiguous-target error, which
    reports nothing about rows; and for two frames of different semantic
    types [_cat_helper] itself succeeds, the failure coming only from the
    constructor of the result. *)
Lemma cat_col_row_counts_counterexample :
  valid two_rows_y = true /\ valid three_rows_y = true /\
  num_rows two_rows_y <> num_rows three_rows_y /\
  cat_ex [two_rows_y; three_rows_y] "col" = Err AmbiguousTargetError /\
  reports_row_count AmbiguousTargetError = false /\
  num_rows two_rows <> num_rows three_rows_cat /\
  is_ok (_cat_helper ragged_stype group_stype [two_rows; three_rows_cat] 1)
  = true /\
  cat_ex [two_rows; three_rows_cat] "col" = Err FrameInvariantError.
Proof. repeat split; try reflexivity; discriminate. Qed.

Lemma cat_col_row_counts_witness :
  (cat_ex [two_rows; two_rows_cat] "col" = Ok two_rows_num_cat /\
   num_rows two_rows = num_rows two_rows_num_cat) /\
  cat_ex [two_rows; three_rows] "col" = Err TorchSizeError /\
  (valid two_rows_rag = true /\ valid three_rows_rag = true /\
   cat_ex [two_rows_rag; three_rows_rag] "col" = Err RaggedSizeError) /\
  (valid two_rows_m1 = true /\ valid three_rows_m2 = true /\
   cat_ex [two_rows_m1; three_rows_m2] "col" = Err (KeyError "m1")) /\
  (exists e,
     cat_ex [two_rows; three_rows] "col" = Err e /\
     (2 <= length (targets [two_rows; three_rows]) ->
      e = AmbiguousTargetError) /\
     (length (targets [two_rows; three_rows]) <= 1 ->
      forall s names,
        first_duplicated (merged_col_names [two_rows; three_rows])
        = Some (s, names) ->
        e = DuplicateColumnError s (_get_duplicates names)) /\
     (length (targets [two_rows; three_rows]) <= 1 ->
      first_duplicated (merged_col_names [two_rows; three_rows]) = None ->
      col_storage_error e = true \/ e = FrameInvariantError)).
Proof.
  split; [|split; [reflexivity|split; [|split]]].
  - split; [reflexivity|].
    apply (proj1 (cat_col_row_counts ragged_stype group_stype
                    [two_rows; two_rows_cat]
                    ltac:(each_frame reflexivity)) two_rows_num_cat eq_refl).
    simpl; auto.
  - repeat split; reflexivity.
  - repeat split; reflexivity.
  - apply (proj2 (cat_col_row_counts ragged_stype group_stype
                    [two_rows; three_rows]
                    ltac:(each_frame reflexivity)) two_rows three_rows).
    + simpl; auto.
    + simpl; auto.
    + discriminate.
Defined.

(** C5 as stated does not hold.  Two frames that share the column name "a"
    and both carry a target fail with the ambiguous-target error, not with
    the duplicate-column error.  And when the names of two semantic types
    repeat, the error lists the repeated names of the first type only: "c"
    occurs twice among the categorical names and is not listed. *)
Lemma cat_col_duplicate_names_counterexample :
  (count_occ string_dec (combined_names numerical [two_rows_y; three_rows_a_y])
             "a" = 2 /\
   cat_ex [two_rows_y; three_rows_a_y] "col" = Err AmbiguousTargetError) /\
  (cat_ex [two_rows_num_cat; two_rows_num_cat] "col"
   = Err (DuplicateColumnError numerical ["a"]) /\
   count_occ string_dec
             (combined_names categorical [two_rows_num_cat; two_rows_num_cat])
             "c" = 2 /\
   ~ In "c" ["a"]).
Proof.
  repeat split; try reflexivity. simpl. intros [E|[]]. discriminate.
Qed.

Lemma cat_col_duplicate_names_witness :
  cat_ex [two_rows_num_cat; two_rows_num_cat] "col"
  = Err (DuplicateColumnError numerical ["a"]) /\
  exists s before after,
    merged_col_names [two_rows_num_cat; two_rows_num_cat]
    = before
      ++ (s, combined_names s [two_rows_num_cat; two_rows_num_cat]) :: after /\
    (forall s' names', In (s', names') before -> NoDup names') /\
    cat_ex [two_rows_num_cat; two_rows_num_cat] "col"
    = Err (DuplicateColumnError
             s (_get_duplicates
                  (combined_names s [two_rows_num_cat; two_rows_num_cat]))) /\
    _get_duplicates (combined_names s [two_rows_num_cat; two_rows_num_cat])
    <> [] /\
    NoDup (_get_duplicates
             (combined_names s [two_rows_num_cat; two_rows_num_cat])) /\
    forall n,
      In n (_get_duplicates
              (combined_names s [two_rows_num_cat; two_rows_num_cat])) <->
      2 <= count_occ string_dec
             (combined_names s [two_rows_num_cat; two_rows_num_cat]) n.
Proof.
  split; [reflexivity|].
  apply (proj2 (cat_col_duplicate_names ragged_stype group_stype
                  [two_rows_num_cat; two_rows_num_cat]
                  ltac:(each_frame nodup_keys)
                  ltac:(simpl; lia))).
  exists categorical, "c". simpl. lia.
Defined.
